(** * simferm: a shallow embedding of [simferm.py] and its specification

    [simferm.py] simulates the telemetry of a fermentation: once per second
    it advances a temperature and a specific gravity, appends a line to
    [simferm.log] and notifies a Tilt-Sim device through [curl].

    Python's [float] is IEEE-754 binary64, which is what Rocq's primitive
    [float] is, so the arithmetic of the program is run here bit for bit.
    Python's [int] is unbounded and is modelled by [Z].  Effects (log file,
    standard output, sub-processes, clock, sleeping) are threaded through a
    state-and-exception monad over a record of oracles for the outside
    world.

    What the model takes for granted: the values of a configuration file
    have the types [argparse] gives to the flags of the same names; a
    [curl] that exits with an error is no exception, since
    [subprocess.run] is called without [check], so the only failure of a
    notification is [subprocess.run] itself raising; [print],
    [time.sleep] and closing the log do not raise. *)

From Stdlib Require Import ZArith List String Bool Lia Floats Sorted.
From Stdlib Require Uint63.
Import ListNotations.

Set Warnings "-inexact-float".
Local Open Scope Z_scope.

(** ** Python numbers *)

Module Py.

(** The exceptions the program can meet. *)
Inductive exn : Type :=
| ZeroDivisionError
| ValueError
| OverflowError
| OSError.

Inductive result (A : Type) : Type :=
| Ok (a : A)
| Raise (e : exn).
Arguments Ok {A} a.
Arguments Raise {A} e.

Definition rbind {A B} (r : result A) (k : A -> result B) : result B :=
  match r with
  | Ok a => k a
  | Raise e => Raise e
  end.

(** [int(x)] for a float [x]: truncation toward zero; [ValueError] on NaN,
    [OverflowError] on an infinity. *)
Definition int_of_float (x : float) : result Z :=
  match Prim2SF x with
  | S754_nan => Raise ValueError
  | S754_infinity _ => Raise OverflowError
  | S754_zero _ => Ok 0
  | S754_finite s m e =>
      Ok (cond_Zopp s
            (match e with
             | Zneg p => Z.shiftr (Zpos m) (Zpos p)
             | _ => Z.shiftl (Zpos m) e
             end))
  end.

(** [float(n)] for an int [n], as Python converts an int operand of a mixed
    operation: the nearest binary64 (ties to even), [OverflowError] when
    that is out of range. *)
Definition float_of_int (n : Z) : result float :=
  let f := SF2Prim (binary_normalize prec emax n 0 false) in
  if is_infinity f then Raise OverflowError else Ok f.

Definition Z2SF (n : Z) : spec_float :=
  match n with
  | Z0 => S754_zero false
  | Zpos p => S754_finite false p 0
  | Zneg p => S754_finite true p 0
  end.

(** [a / b] on two ints: the correctly rounded quotient. *)
Definition int_truediv (a b : Z) : result float :=
  if b =? 0 then Raise ZeroDivisionError
  else
    let f := SF2Prim (SFdiv prec emax (Z2SF a) (Z2SF b)) in
    if is_infinity f then Raise OverflowError else Ok f.

(** [x / y] on two floats. *)
Definition float_truediv (x y : float) : result float :=
  if (y =? 0)%float then Raise ZeroDivisionError else Ok (x / y)%float.

(** Python compares a float with an int exactly, without rounding the
    int. *)
Definition SFcompare_Z (x : spec_float) (n : Z) : option comparison :=
  match x with
  | S754_nan => None
  | S754_infinity s => Some (if s then Lt else Gt)
  | S754_zero _ => Some (0 ?= n)
  | S754_finite s m e =>
      let v := cond_Zopp s (Zpos m) in
      Some (match e with
            | Zneg p => v ?= n * 2 ^ Zpos p
            | _ => v * 2 ^ e ?= n
            end)
  end.

(** A value that is an [int] or a [float] at run time. *)
Inductive num : Type :=
| Int (n : Z)
| Flt (f : float).

Definition num_compare (x y : num) : option comparison :=
  match x, y with
  | Int a, Int b => Some (a ?= b)
  | Flt f, Int b => SFcompare_Z (Prim2SF f) b
  | Int a, Flt g => option_map CompOpp (SFcompare_Z (Prim2SF g) a)
  | Flt f, Flt g => SFcompare (Prim2SF f) (Prim2SF g)
  end.

(** [x > y], [x >= y], [x <= y] *)
Definition gt (x y : num) : bool :=
  match num_compare x y with Some Gt => true | _ => false end.
Definition ge (x y : num) : bool :=
  match num_compare x y with Some (Gt | Eq) => true | _ => false end.
Definition le (x y : num) : bool :=
  match num_compare x y with Some (Lt | Eq) => true | _ => false end.

Definition to_float (x : num) : result float :=
  match x with
  | Int n => float_of_int n
  | Flt f => Ok f
  end.

(** [x + y], [x - y], [x / y] with Python's coercion of a mixed pair. *)
Definition add (x y : num) : result num :=
  match x, y with
  | Int a, Int b => Ok (Int (a + b))
  | _, _ => rbind (to_float x) (fun f => rbind (to_float y) (fun g => Ok (Flt (f + g)%float)))
  end.

Definition sub (x y : num) : result num :=
  match x, y with
  | Int a, Int b => Ok (Int (a - b))
  | _, _ => rbind (to_float x) (fun f => rbind (to_float y) (fun g => Ok (Flt (f - g)%float)))
  end.

Definition truediv (x y : num) : result float :=
  match x, y with
  | Int a, Int b => int_truediv a b
  | _, _ => rbind (to_float x) (fun f => rbind (to_float y) (fun g => float_truediv f g))
  end.

(** The builtins [max(a, b)] and [min(a, b)] on floats: the first argument
    is kept unless the second is strictly larger (smaller). *)
Definition max (a b : float) : float := if (a <? b)%float then b else a.
Definition min (a b : float) : float := if (b <? a)%float then b else a.

(** What [f"{x:.Nf}"] prints: the decimal with [N] digits after the point
    nearest to the exact value of [x], ties to even.  [Fixed s k] stands for
    the sign [s] and the digits of [k], the last [N] of them after the
    point. *)
Inductive shown : Type :=
| Fixed (neg : bool) (k : Z)
| ShownInf (neg : bool)
| ShownNan.

Definition round_half_even (a b : Z) : Z :=
  let q := a / b in
  match 2 * (a mod b) ?= b with
  | Lt => q
  | Gt => q + 1
  | Eq => if Z.even q then q else q + 1
  end.

Definition format_f (N : Z) (x : float) : shown :=
  match Prim2SF x with
  | S754_nan => ShownNan
  | S754_infinity s => ShownInf s
  | S754_zero s => Fixed s 0
  | S754_finite s m e =>
      Fixed s (match e with
               | Zneg p => round_half_even (Zpos m * 10 ^ N) (2 ^ Zpos p)
               | _ => Zpos m * 2 ^ e * 10 ^ N
               end)
  end.

End Py.

(** ** The outside world *)

Local Open Scope string_scope.
Local Open Scope list_scope.

(** [DEFAULTS]: the parameter dictionary, its seven keys typed the way
    [argparse] types them. *)
Record Defaults : Type := mkDefaults {
  ip : string;
  color : string;
  starttemp : float;
  finaltemp : float;
  time : Z;
  og : float;
  fg : float
}.

Definition DEFAULTS : Defaults :=
  {| ip := "192.168.254.62";
     color := "yellow*hd";
     starttemp := 101.3;
     finaltemp := 55.3;
     time := 60;
     og := 1.0615;
     fg := 1.015 |}.

Definition script_version : Z := 39.

(** A mapping that overrides some of the keys: the content of a YAML
    configuration file, or the flags given on the command line. *)
Record Overrides : Type := mkOverrides {
  o_ip : option string;
  o_color : option string;
  o_starttemp : option float;
  o_finaltemp : option float;
  o_time : option Z;
  o_og : option float;
  o_fg : option float
}.

Definition no_overrides : Overrides :=
  mkOverrides None None None None None None None.

Definition pick {A} (o : option A) (d : A) : A :=
  match o with Some a => a | None => d end.

(** [DEFAULTS.update(o)] *)
Definition update (D : Defaults) (o : Overrides) : Defaults :=
  {| ip := pick (o_ip o) (ip D);
     color := pick (o_color o) (color D);
     starttemp := pick (o_starttemp o) (starttemp D);
     finaltemp := pick (o_finaltemp o) (finaltemp D);
     time := pick (o_time o) (time D);
     og := pick (o_og o) (og D);
     fg := pick (o_fg o) (fg D) |}.

Definition is_empty (o : Overrides) : bool :=
  match o with
  | mkOverrides None None None None None None None => true
  | _ => false
  end.

(** The parsed command line. *)
Record Args : Type := mkArgs {
  a_config : option string;
  a_flags : Overrides
}.

(** What opening and parsing a configuration file comes to. *)
Inductive file_read : Type :=
| NotFound
| BadYaml
| Unreadable
| Loaded (o : Overrides).

(** The lines [update_log] writes; the timestamp comes first. *)
Inductive log_line : Type :=
| Starting (ts : Z) (tilt : string) (gravity temp : float)
           (run_time : Z) (final_gravity final_temp : float)
| AtStart (ts version : Z) (start_temp start_gravity : float) (tilt : string)
| Complete (ts version : Z) (temp gravity : float) (tilt : string)
| Current (ts : Z) (temp gravity : float) (tilt : string).

Inductive message : Type :=
| MsgStarted
| MsgComplete
| MsgLogError
| MsgCurlError
| MsgConfigError (path : string).

(** What the program does to the outside world, in order.  A write and a
    sub-process carry whether the call went through ([true]) or raised. *)
Inductive event : Type :=
| EOpen
| EWrite (ok : bool) (l : log_line)
| EFlush (ok : bool)
| ECurl (ok : bool) (addr tilt : string) (temp gravity : float)
| EPrint (m : message)
| ESleep (secs : float)
| ERandom (x : float).

(** The oracles: what the [k]-th question put to the outside world is
    answered. *)
Record Env : Type := mkEnv {
  files : string -> file_read;      (* the file system, for [--config] *)
  log_opens : bool;                 (* can [simferm.log] be opened for writing *)
  fails : nat -> bool;              (* does the call raise *)
  now : nat -> Z;                   (* [datetime.now()] *)
  clock : nat -> float;             (* [time.time()] *)
  uniform : nat -> float            (* [random.uniform(0.000, 0.099)] *)
}.

Record World : Type := mkWorld {
  trace : list event;
  asked : nat
}.

Definition w0 : World := mkWorld [] 0.

(** ** The monad of the program: state and exceptions *)

Definition M (A : Type) : Type := World -> Py.result A * World.

Definition ret {A} (a : A) : M A := fun w => (Py.Ok a, w).

Definition bind {A B} (m : M A) (k : A -> M B) : M B :=
  fun w =>
    match m w with
    | (Py.Ok a, w') => k a w'
    | (Py.Raise e, w') => (Py.Raise e, w')
    end.

Definition raise {A} (e : Py.exn) : M A := fun w => (Py.Raise e, w).

Definition lift {A} (r : Py.result A) : M A := fun w => (r, w).

(** [try: m  except Exception as e: h] *)
Definition try_except {A} (m : M A) (h : Py.exn -> M A) : M A :=
  fun w =>
    match m w with
    | (Py.Ok a, w') => (Py.Ok a, w')
    | (Py.Raise e, w') => h e w'
    end.

Definition emit (e : event) : M unit :=
  fun w => (Py.Ok tt, mkWorld (trace w ++ [e]) (asked w)).

Definition ask {A} (oracle : nat -> A) : M A :=
  fun w => (Py.Ok (oracle (asked w)), mkWorld (trace w) (S (asked w))).

Notation "x <- m ;; k" := (bind m (fun x => k))
  (at level 61, m at next level, right associativity).
Notation "m ;;; k" := (bind m (fun _ => k))
  (at level 61, right associativity).

(** ** The program *)

Inductive direction : Type := up | down.

(** The local variables of [main] that the loop assigns. *)
Record Locals : Type := mkLocals {
  start_temp : Py.num;                 (* milli-degrees Celsius *)
  current_temp_fahrenheit : float;
  gravity : float;
  timestamp : Z
}.

(** [x / 1000 * 9/5 + 32]; the int literals 9, 5 and 32 convert to floats
    exactly. *)
Definition fahrenheit (x : Py.num) : Py.result float :=
  Py.rbind (Py.truediv x (Py.Int 1000)) (fun c => Py.Ok (c * 9 / 5 + 32)%float).

(** [int((f - 32) * 5/9 * 1000)] *)
Definition milli_celsius (f : float) : Py.result Z :=
  Py.int_of_float ((f - 32) * 5 / 9 * 1000)%float.

Definition determine_direction (start_temp end_temp : Py.num) : direction :=
  if Py.gt start_temp end_temp then down else up.

(** [start_temp += abs(temp_change_per_interval)], or [-=] when the
    direction is down. *)
Definition adjust (dir : direction) (temp_change_per_interval : float)
    (start_temp : Py.num) : Py.result Py.num :=
  match dir with
  | up => Py.add start_temp (Py.Flt (abs temp_change_per_interval))
  | down => Py.sub start_temp (Py.Flt (abs temp_change_per_interval))
  end.

(** [gravity_change = (DEFAULTS['og'] - final_gravity) / number_of_changes] *)
Definition gravity_change (og final_gravity : float) (number_of_changes : Z)
    : Py.result float :=
  Py.truediv (Py.Flt (og - final_gravity)) (Py.Int number_of_changes).

Section Program.

Variable E : Env.

Definition generate_random_temp_increment : M float :=
  x <- ask (uniform E) ;;
  emit (ERandom x) ;;;
  ret x.

Definition file_write (l : log_line) : M unit :=
  failed <- ask (fails E) ;;
  emit (EWrite (negb failed) l) ;;;
  if (failed : bool) then raise Py.OSError else ret tt.

Definition file_flush : M unit :=
  failed <- ask (fails E) ;;
  emit (EFlush (negb failed)) ;;;
  if (failed : bool) then raise Py.OSError else ret tt.

Definition subprocess_run (addr tilt : string) (temp gravity : float) : M unit :=
  failed <- ask (fails E) ;;
  emit (ECurl (negb failed) addr tilt temp gravity) ;;;
  if (failed : bool) then raise Py.OSError else ret tt.

Definition update_log (D : Defaults) (timestamp script_version : Z)
    (current_temp_fahrenheit : float) (color : string) (gravity : float)
    (start_temp_fahrenheit og : float) (is_start is_end : bool) : M unit :=
  try_except
    (log_entry <-
       (if is_start then
          ret (Starting timestamp color gravity current_temp_fahrenheit
                 (time D) (fg D) (finaltemp D))
        else if is_end then
          file_write (AtStart timestamp script_version start_temp_fahrenheit og color) ;;;
          ret (Complete timestamp script_version current_temp_fahrenheit gravity color)
        else
          ret (Current timestamp current_temp_fahrenheit gravity color)) ;;
     file_write log_entry ;;;
     file_flush)
    (fun _ => emit (EPrint MsgLogError)).

Definition execute_curl_command (ip_addr color : string)
    (current_temp_fahrenheit gravity : float) : M unit :=
  try_except
    (subprocess_run ip_addr color current_temp_fahrenheit gravity)
    (fun _ => emit (EPrint MsgCurlError)).

Definition read_config_file (file_path : string) : M (option Overrides) :=
  match files E file_path with
  | Loaded o => ret (Some o)
  | NotFound => ret None
  | BadYaml => emit (EPrint (MsgConfigError file_path)) ;;; ret None
  | Unreadable => raise Py.OSError
  end.

(** The lines of [main] up to the resolved [DEFAULTS]. *)
Definition resolve (args : Args) : M Defaults :=
  D <- match a_config args with
       | Some path =>
           if (String.length path =? 0)%nat then ret DEFAULTS
           else
             config_data <- read_config_file path ;;
             ret (match config_data with
                  | Some o => if is_empty o then DEFAULTS else update DEFAULTS o
                  | None => DEFAULTS
                  end)
       | None => ret DEFAULTS
       end ;;
  ret (update D (a_flags args)).

Section Loop.

Variable D : Defaults.
Variable dir : direction.
Variable end_temp : Z.
Variable temp_change_per_interval : float.
Variable final_gravity : float.
Variable number_of_changes : Z.
Variable start_time : float.
Variable start_temp_fahrenheit : float.

(** The test that leaves the loop. *)
Definition reached (t : Py.num) : bool :=
  match dir with
  | up => Py.ge t (Py.Int end_temp)
  | down => Py.le t (Py.Int end_temp)
  end.

(** One pass through the body of the [for] loop, after the test. *)
Definition tick (i : Z) (st : Locals) : M Locals :=
  t <- lift (adjust dir temp_change_per_interval (start_temp st)) ;;
  f <- lift (fahrenheit t) ;;
  ts <- ask (now E) ;;
  update_log D ts script_version f (color D) (gravity st)
    start_temp_fahrenheit (og D) false false ;;;
  execute_curl_command (ip D) (color D) f (gravity st) ;;;
  change <- lift (gravity_change (og D) final_gravity number_of_changes) ;;
  let g := Py.max final_gravity (gravity st - change) in
  c <- ask (clock E) ;;
  let elapsed_time := (c - start_time)%float in
  n <- lift (Py.float_of_int (i + 1)) ;;
  let sleep_time := (n - elapsed_time)%float in
  (if (0 <? sleep_time)%float then emit (ESleep sleep_time) else ret tt) ;;;
  ret (mkLocals t f g ts).

(** [for i in range(number_of_changes)], [fuel] passes being left. *)
Fixpoint loop (fuel : nat) (i : Z) (st : Locals) : M Locals :=
  match fuel with
  | O => ret st
  | S fuel' =>
      if reached (start_temp st) then ret st
      else st' <- tick i st ;; loop fuel' (i + 1) st'
  end.

End Loop.

Definition main (args : Args) : M unit :=
  D <- resolve args ;;
  start_temp0 <- lift (milli_celsius (starttemp D)) ;;
  end_temp <- lift (milli_celsius (finaltemp D)) ;;
  let dir := determine_direction (Py.Int start_temp0) (Py.Int end_temp) in
  let total_temp_change := end_temp - start_temp0 in
  let number_of_changes := time D * 60 in
  temp_change_per_interval <- lift (Py.int_truediv total_temp_change number_of_changes) ;;
  let gravity0 := Py.max (og D) (fg D) in
  let final_gravity := Py.min (og D) (fg D) in
  start_time <- ask (clock E) ;;
  fahrenheit0 <- lift (fahrenheit (Py.Int start_temp0)) ;;
  let start_temp_fahrenheit := starttemp D in
  emit (EPrint MsgStarted) ;;;
  (if log_opens E then emit EOpen else raise Py.OSError) ;;;
  timestamp0 <- ask (now E) ;;
  update_log D timestamp0 script_version fahrenheit0 (color D) gravity0
    start_temp_fahrenheit (og D) true false ;;;
  st <- loop D dir end_temp temp_change_per_interval final_gravity number_of_changes
          start_time start_temp_fahrenheit
          (Z.to_nat number_of_changes) 0
          (mkLocals (Py.Int start_temp0) fahrenheit0 gravity0 timestamp0) ;;
  execute_curl_command (ip D) (color D) (current_temp_fahrenheit st) (gravity st) ;;;
  update_log D (timestamp st) script_version (current_temp_fahrenheit st) (color D)
    (gravity st) start_temp_fahrenheit (og D) false true ;;;
  emit (EPrint MsgComplete).

End Program.

(** A whole run: the exit of [main] and everything it did. *)
Definition run (E : Env) (args : Args) : Py.result unit * list event :=
  let (r, w) := main E args w0 in (r, trace w).

Definition outcome (E : Env) (args : Args) : Py.result unit := fst (run E args).
Definition history (E : Env) (args : Args) : list event := snd (run E args).

(** ** What a run shows *)

(** The resolved parameters, without the effects of [resolve]. *)
Definition resolved (E : Env) (args : Args) : Defaults :=
  update
    (match a_config args with
     | Some path =>
         if (String.length path =? 0)%nat then DEFAULTS
         else match files E path with
              | Loaded o => if is_empty o then DEFAULTS else update DEFAULTS o
              | _ => DEFAULTS
              end
     | None => DEFAULTS
     end)
    (a_flags args).

(** A temperature (°F) and a gravity handed to one of the two sinks. *)
Inductive source : Type :=
| SrcStart    (* the start line of the log *)
| SrcTick     (* a per-tick line of the log *)
| SrcHttp     (* a notification of the device *)
| SrcRecap    (* the recap of the start values, written at the end *)
| SrcFinal.   (* the complete line of the log *)

Record reading : Type := mkReading {
  src : source;
  r_temp : float;
  r_gravity : float
}.

Definition reading_of (e : event) : list reading :=
  match e with
  | EWrite _ (Starting _ _ g t _ _ _) => [mkReading SrcStart t g]
  | EWrite _ (Current _ t g _) => [mkReading SrcTick t g]
  | EWrite _ (AtStart _ _ t g _) => [mkReading SrcRecap t g]
  | EWrite _ (Complete _ _ t g _) => [mkReading SrcFinal t g]
  | ECurl _ _ _ t g => [mkReading SrcHttp t g]
  | _ => []
  end.

Definition readings (tr : list event) : list reading := flat_map reading_of tr.

Definition is_tick (r : reading) : bool :=
  match src r with SrcTick => true | _ => false end.
Definition is_http (r : reading) : bool :=
  match src r with SrcHttp => true | _ => false end.
Definition is_recap (r : reading) : bool :=
  match src r with SrcRecap => true | _ => false end.
Definition is_final (r : reading) : bool :=
  match src r with SrcFinal => true | _ => false end.

(** The per-tick lines of the log and the notifications, as pairs of a
    temperature and a gravity. *)
Definition values (rs : list reading) : list (float * float) :=
  map (fun r => (r_temp r, r_gravity r)) rs.
Definition tick_lines (tr : list event) : list (float * float) :=
  values (filter is_tick (readings tr)).
Definition notifications (tr : list event) : list (float * float) :=
  values (filter is_http (readings tr)).

(** The gravities a run shows, in order; the recap line repeats the
    [og] parameter and is no reading of the simulated state. *)
Definition gravities (tr : list event) : list float :=
  map r_gravity (filter (fun r => negb (is_recap r)) (readings tr)).




Definition is_complete_line (l : log_line) : bool :=
  match l with Complete _ _ _ _ _ => true | _ => false end.

(** The draws of the random generator. *)
Definition drawn (e : event) : list float :=
  match e with
  | ERandom x => [x]
  | _ => []
  end.
Definition randoms (tr : list event) : list float := flat_map drawn tr.

(** An outside world in which nothing fails, no configuration file
    exists and the clock stands still. *)
Definition calm : Env :=
  {| files := fun _ => NotFound;
     log_opens := true;
     fails := fun _ => false;
     now := fun k => Z.of_nat k;
     clock := fun _ => 0%float;
     uniform := fun _ => 0%float |}.

(** The command line [--starttemp s --finaltemp f --og o --fg g --time t]. *)
Definition command_line (s f o g : float) (t : Z) : Args :=
  {| a_config := None;
     a_flags := mkOverrides None None (Some s) (Some f) (Some t) (Some o) (Some g) |}.

(** ** The arithmetic of a run, apart from the outside world *)

(** The values the loop carries: [start_temp], [current_temp_fahrenheit]
    and [gravity]. *)
Definition Values : Type := (Py.num * float * float)%type.

Definition values_of (st : Locals) : Values :=
  (start_temp st, current_temp_fahrenheit st, gravity st).

Section Arithmetic.

Variable D : Defaults.
Variable dir : direction.
Variable end_temp : Z.
Variable temp_change_per_interval : float.
Variable final_gravity : float.
Variable number_of_changes : Z.

(** What one pass of the loop hands to the sinks, and what it leaves. *)
Definition step (i : Z) (s : Values) : list reading * Py.result Values :=
  let '(t, _, g) := s in
  match adjust dir temp_change_per_interval t with
  | Py.Raise e => ([], Py.Raise e)
  | Py.Ok t' =>
      match fahrenheit t' with
      | Py.Raise e => ([], Py.Raise e)
      | Py.Ok f' =>
          let rs := [mkReading SrcTick f' g; mkReading SrcHttp f' g] in
          match gravity_change (og D) final_gravity number_of_changes with
          | Py.Raise e => (rs, Py.Raise e)
          | Py.Ok change =>
              match Py.float_of_int (i + 1) with
              | Py.Raise e => (rs, Py.Raise e)
              | Py.Ok _ => (rs, Py.Ok (t', f', Py.max final_gravity (g - change)%float))
              end
          end
      end
  end.

Fixpoint steps (fuel : nat) (i : Z) (s : Values) : list reading * Py.result Values :=
  match fuel with
  | O => ([], Py.Ok s)
  | S fuel' =>
      if reached dir end_temp (fst (fst s)) then ([], Py.Ok s)
      else
        match step i s with
        | (rs, Py.Raise e) => (rs, Py.Raise e)
        | (rs, Py.Ok s') =>
            let (rs', r) := steps fuel' (i + 1) s' in (rs ++ rs', r)
        end
  end.

End Arithmetic.

(** The values [main] computes before it opens the log. *)
Record Plan : Type := mkPlan {
  p_start_temp : Z;
  p_end_temp : Z;
  p_change : float;        (* [temp_change_per_interval] *)
  p_fahrenheit : float     (* the start temperature, back in °F *)
}.

Definition plan (D : Defaults) : Py.result Plan :=
  Py.rbind (milli_celsius (starttemp D)) (fun s =>
  Py.rbind (milli_celsius (finaltemp D)) (fun e =>
  Py.rbind (Py.int_truediv (e - s) (time D * 60)) (fun c =>
  Py.rbind (fahrenheit (Py.Int s)) (fun f =>
  Py.Ok (mkPlan s e c f))))).

Definition planned_loop (D : Defaults) (p : Plan) : list reading * Py.result Values :=
  steps D
    (determine_direction (Py.Int (p_start_temp p)) (Py.Int (p_end_temp p)))
    (p_end_temp p) (p_change p) (Py.min (og D) (fg D)) (time D * 60)
    (Z.to_nat (time D * 60)) 0
    (Py.Int (p_start_temp p), p_fahrenheit p, Py.max (og D) (fg D)).

(** Is the file named by [--config] there but impossible to read? *)
Definition unreadable (E : Env) (args : Args) : bool :=
  match a_config args with
  | Some path =>
      if (String.length path =? 0)%nat then false
      else match files E path with Unreadable => true | _ => false end
  | None => false
  end.

(** How a run ends, and what it hands to the sinks before the complete
    line. *)
Definition expected_outcome (E : Env) (args : Args) : Py.result unit :=
  if unreadable E args then Py.Raise Py.OSError
  else
    let D := resolved E args in
    match plan D with
    | Py.Raise e => Py.Raise e
    | Py.Ok p =>
        if log_opens E then
          match snd (planned_loop D p) with
          | Py.Raise e => Py.Raise e
          | Py.Ok _ => Py.Ok tt
          end
        else Py.Raise Py.OSError
    end.

Definition expected (E : Env) (args : Args) : list reading :=
  if unreadable E args then []
  else
    let D := resolved E args in
    match plan D with
    | Py.Raise _ => []
    | Py.Ok p =>
        if log_opens E then
          mkReading SrcStart (p_fahrenheit p) (Py.max (og D) (fg D))
          :: fst (planned_loop D p)
          ++ match snd (planned_loop D p) with
             | Py.Raise _ => []
             | Py.Ok (_, f, g) =>
                 [mkReading SrcHttp f g; mkReading SrcRecap (starttemp D) (og D)]
             end
        else []
    end.

(** The complete line that closes the log of a run that ends well. *)
Definition expected_final (E : Env) (args : Args) : list reading :=
  match expected_outcome E args, plan (resolved E args) with
  | Py.Ok _, Py.Ok p =>
      match snd (planned_loop (resolved E args) p) with
      | Py.Ok (_, f, g) => [mkReading SrcFinal f g]
      | Py.Raise _ => []
      end
  | _, _ => []
  end.

(** The same outside world with other failures, timestamps, clock and
    random draws. *)
Definition reseed (E : Env) (f : nat -> bool) (n : nat -> Z)
    (c u : nat -> float) : Env :=
  mkEnv (files E) (log_opens E) f n c u.

Definition fault_free (E : Env) : Prop := forall k, fails E k = false.


(** An event that shows no failure. *)
Definition clean (e : event) : bool :=
  match e with
  | EWrite ok _ => ok
  | EFlush ok => ok
  | ECurl ok _ _ _ _ => ok
  | EPrint MsgLogError => false
  | EPrint MsgCurlError => false
  | _ => true
  end.

(** From [w] to [w'] the program has handed the readings [rs] to the
    sinks, drawn no random number and, where nothing fails, met no
    failure. *)
Definition adds (E : Env) (w w' : World) (rs : list reading) : Prop :=
  exists evs,
    trace w' = trace w ++ evs
    /\ readings evs = rs
    /\ randoms evs = []
    /\ (fault_free E -> forallb clean evs = true).


(** The gravity after [k] passes of the loop and the temperature after
    [k] passes, as the statements of the loop compute them. *)
Fixpoint decrements (og final_gravity : float) (number_of_changes : Z)
    (k : nat) (g : float) : Py.result float :=
  match k with
  | O => Py.Ok g
  | S k' =>
      Py.rbind (gravity_change og final_gravity number_of_changes) (fun change =>
      decrements og final_gravity number_of_changes k'
        (Py.max final_gravity (g - change)%float))
  end.

Fixpoint adjustments (dir : direction) (temp_change_per_interval : float)
    (k : nat) (t : Py.num) : Py.result Py.num :=
  match k with
  | O => Py.Ok t
  | S k' =>
      Py.rbind (adjust dir temp_change_per_interval t)
        (adjustments dir temp_change_per_interval k')
  end.

Definition gravity_after (D : Defaults) (k : nat) : Py.result float :=
  decrements (og D) (Py.min (og D) (fg D)) (time D * 60) k (Py.max (og D) (fg D)).

Definition temperature_after (D : Defaults) (k : nat) : Py.result float :=
  Py.rbind (plan D) (fun p =>
  Py.rbind
    (adjustments
       (determine_direction (Py.Int (p_start_temp p)) (Py.Int (p_end_temp p)))
       (p_change p) k (Py.Int (p_start_temp p)))
    fahrenheit).

(** The two readings of one pass of the loop. *)
Definition pass (v : float * float) : list reading :=
  [mkReading SrcTick (fst v) (snd v); mkReading SrcHttp (fst v) (snd v)].

(** The readings a run is expected to show, taken apart. *)
Inductive anatomy (E : Env) (args : Args) : Prop :=
| Stillborn (e : Py.exn) :
    expected_outcome E args = Py.Raise e ->
    expected E args = [] ->
    expected_final E args = [] ->
    anatomy E args
| Broken (e : Py.exn) (p : Plan) (l : list (float * float)) :
    expected_outcome E args = Py.Raise e ->
    plan (resolved E args) = Py.Ok p ->
    expected E args
      = mkReading SrcStart (p_fahrenheit p) (Py.max (og (resolved E args)) (fg (resolved E args)))
        :: flat_map pass l ->
    expected_final E args = [] ->
    (List.length l <= Z.to_nat (time (resolved E args) * 60))%nat ->
    (forall k v, nth_error l k = Some v ->
       gravity_after (resolved E args) k = Py.Ok (snd v)
       /\ temperature_after (resolved E args) (S k) = Py.Ok (fst v)) ->
    anatomy E args
| Whole (p : Plan) (l : list (float * float)) (f g : float) :
    expected_outcome E args = Py.Ok tt ->
    plan (resolved E args) = Py.Ok p ->
    expected E args
      = mkReading SrcStart (p_fahrenheit p) (Py.max (og (resolved E args)) (fg (resolved E args)))
        :: flat_map pass l
        ++ [mkReading SrcHttp f g;
            mkReading SrcRecap (starttemp (resolved E args)) (og (resolved E args))] ->
    expected_final E args = [mkReading SrcFinal f g] ->
    (List.length l <= Z.to_nat (time (resolved E args) * 60))%nat ->
    (forall k v, nth_error l k = Some v ->
       gravity_after (resolved E args) k = Py.Ok (snd v)
       /\ temperature_after (resolved E args) (S k) = Py.Ok (fst v)) ->
    gravity_after (resolved E args) (List.length l) = Py.Ok g ->
    (l = [] /\ f = p_fahrenheit p \/ exists l' v, l = l' ++ [v] /\ f = fst v) ->
    anatomy E args.

(** ** Runs used as examples *)

(** The example of the specification: the defaults, for one minute. *)
Definition one_minute : Args := command_line 101.3 55.3 1.0615 1.015 1.

(** The same with the two gravities exchanged. *)
Definition swapped_gravities : Args := command_line 101.3 55.3 1.015 1.0615 1.

(** The same for zero minutes. *)
Definition zero_minutes : Args := command_line 101.3 55.3 1.0615 1.015 0.

(** Cooling from 60 °F to 50.0502 °F in one minute. *)
Definition cooling : Args := command_line 60 50.0502 1.0615 1.015 1.

(** An outside world in which the third question, the write of the start
    line, fails and nothing else does. *)
Definition flaky : Env :=
  {| files := fun _ => NotFound;
     log_opens := true;
     fails := fun k => Nat.eqb k 2;
     now := fun k => Z.of_nat k;
     clock := fun _ => 0%float;
     uniform := fun _ => 0%float |}.

(** An outside world whose configuration file does not parse. *)
Definition garbled : Env :=
  {| files := fun _ => BadYaml;
     log_opens := true;
     fails := fun _ => false;
     now := fun k => Z.of_nat k;
     clock := fun _ => 0%float;
     uniform := fun _ => 0%float |}.

(** The first per-tick line of the example run. *)
Definition first_tick : float * float :=
  Eval vm_compute in
    match tick_lines (history calm one_minute) with
    | v :: _ => v
    | [] => (0, 0)%float
    end.

(** ** Binary64 arithmetic: the notions used to reason about it *)

Local Open Scope Z_scope.

(** The last stage of [binary_round_aux]: a second shift when rounding has
    made the mantissa too long, then the test for overflow. *)
Definition finish (s : bool) (m2 fe : Z) : spec_float :=
  let '(r, e3) := shr_fexp prec emax m2 fe loc_Exact in
  match shr_m r with
  | Z0 => S754_zero s
  | Zpos m => if e3 <=? emax - prec then S754_finite s m e3 else S754_infinity s
  | Zneg _ => S754_nan
  end.

(** A result of the sign [s] that does not exceed, in magnitude, the
    canonical pair [(mg, eg)]; one that is not below it. *)
Definition below (s : bool) (mg : positive) (eg : Z) (r : spec_float) : Prop :=
  r = S754_zero s
  \/ exists m e, r = S754_finite s m e /\ (e < eg \/ e = eg /\ Zpos m <= Zpos mg).

Definition above (s : bool) (mg : positive) (eg : Z) (r : spec_float) : Prop :=
  r = S754_infinity s
  \/ exists m e, r = S754_finite s m e /\ (eg < e \/ e = eg /\ Zpos mg <= Zpos m).

(** Not negative, or not a number. *)
Definition nonneg (x : spec_float) : Prop :=
  match x with
  | S754_nan => True
  | S754_zero _ => True
  | S754_infinity s => s = false
  | S754_finite s _ _ => s = false
  end.

(** Of the sign [s], or not a number. *)
Definition signed (s : bool) (x : spec_float) : Prop :=
  match x with
  | S754_nan => True
  | S754_zero s' => s' = s
  | S754_infinity s' => s' = s
  | S754_finite s' _ _ => s' = s
  end.

(** [x <= y] on specified floats. *)
Definition SFle (x y : spec_float) : Prop :=
  SFcompare x y = Some Lt \/ SFcompare x y = Some Eq.

(** [b] comes after [a] and is not above it. *)
Definition not_above (a b : float) : Prop := (b <=? a)%float = true.

(** ** Further outside worlds and command lines *)

(** An outside world whose configuration file is there but cannot be
    opened. *)
Definition locked : Env :=
  {| files := fun _ => Unreadable;
     log_opens := true;
     fails := fun _ => false;
     now := fun k => Z.of_nat k;
     clock := fun _ => 0%float;
     uniform := fun _ => 0%float |}.

(** An outside world in which [simferm.log] cannot be opened. *)
Definition sealed : Env :=
  {| files := fun _ => NotFound;
     log_opens := false;
     fails := fun _ => false;
     now := fun k => Z.of_nat k;
     clock := fun _ => 0%float;
     uniform := fun _ => 0%float |}.

(** A configuration file that sets [time] to 5 and [og] to 1.05. *)
Definition five_minutes_at_1050 : Overrides :=
  mkOverrides None None None None (Some 5) (Some 1.05%float) None.

(** An outside world in which every configuration file is that one. *)
Definition configured : Env :=
  {| files := fun _ => Loaded five_minutes_at_1050;
     log_opens := true;
     fails := fun _ => false;
     now := fun k => Z.of_nat k;
     clock := fun _ => 0%float;
     uniform := fun _ => 0%float |}.

(** [--config simferm.yaml --time 1] *)
Definition minute_flag : Args :=
  {| a_config := Some "simferm.yaml"%string;
     a_flags := mkOverrides None None None None (Some 1) None None |}.

(** [--config simferm.yaml] and nothing else. *)
Definition with_config : Args :=
  {| a_config := Some "simferm.yaml"%string; a_flags := no_overrides |}.

(** The example with a start temperature that is not a number. *)
Definition no_start : Args := command_line nan 55.3 1.0615 1.015 1.

(** The example run backwards in time: minus one minute. *)
Definition minus_one_minute : Args := command_line 101.3 55.3 1.0615 1.015 (-1).

(** Start and end at 70 °F. *)
Definition level : Args := command_line 70 70 1.0615 1.015 1.

(** ** The trace as a frame *)

(** The same world after a longer past. *)
Definition prepend (t : list event) (w : World) : World :=
  mkWorld (t ++ trace w) (asked w).

(** A computation that never looks at the trace: a longer past changes
    what it does in no way. *)
Definition framed {A : Type} (m : M A) : Prop :=
  forall t w, m (prepend t w) = (fst (m w), prepend t (snd (m w))).

(** What [read_config_file] prints. *)
Definition preamble (E : Env) (args : Args) : list event :=
  match a_config args with
  | Some path =>
      if (String.length path =? 0)%nat then []
      else match files E path with
           | BadYaml => [EPrint (MsgConfigError path)]
           | _ => []
           end
  | None => []
  end.

(** ** The test of the loop *)

(** [start_temp], in milli-degrees Celsius, after [k] passes of the loop. *)
Definition milli_after (D : Defaults) (k : nat) : Py.result Py.num :=
  Py.rbind (plan D) (fun p =>
    adjustments
      (determine_direction (Py.Int (p_start_temp p)) (Py.Int (p_end_temp p)))
      (p_change p) k (Py.Int (p_start_temp p))).

(** The test that leaves the loop, with the direction and the target of
    the run. *)
Definition at_target (D : Defaults) (t : Py.num) : bool :=
  match plan D with
  | Py.Ok p =>
      reached (determine_direction (Py.Int (p_start_temp p)) (Py.Int (p_end_temp p)))
        (p_end_temp p) t
  | Py.Raise _ => false
  end.

(** ** What a run may do *)

(** Every event the computation adds to the trace is one of [G], and what
    it returns, if it returns, is one of [Q]. *)
Definition emits {A : Type} (G : event -> Prop) (m : M A) (Q : A -> Prop) : Prop :=
  forall w, exists evs,
    trace (snd (m w)) = trace w ++ evs
    /\ Forall G evs
    /\ forall a, fst (m w) = Py.Ok a -> Q a.

(** What a run with the parameters [D] may do to the outside world: open
    the log, write and flush the four kinds of line with the colour of [D],
    notify the device of [D], print, and sleep until the next whole second
    since the first reading of the clock. *)
Inductive allowed (E : Env) (D : Defaults) : event -> Prop :=
| may_open : allowed E D EOpen
| may_write_start ok ts g t :
    allowed E D (EWrite ok (Starting ts (color D) g t (time D) (fg D) (finaltemp D)))
| may_write_tick ok ts t g :
    allowed E D (EWrite ok (Current ts t g (color D)))
| may_write_recap ok ts :
    allowed E D (EWrite ok (AtStart ts script_version (starttemp D) (og D) (color D)))
| may_write_complete ok ts t g :
    allowed E D (EWrite ok (Complete ts script_version t g (color D)))
| may_flush ok : allowed E D (EFlush ok)
| may_notify ok t g : allowed E D (ECurl ok (ip D) (color D) t g)
| may_print m : allowed E D (EPrint m)
| may_sleep i q fi :
    0 <= i < time D * 60 ->
    Py.float_of_int (i + 1) = Py.Ok fi ->
    (0 <? fi - (clock E q - clock E 0))%float = true ->
    allowed E D (ESleep (fi - (clock E q - clock E 0))).

(** ** The timestamps of the log *)



(** ** The order of what a run does *)

Definition is_recap_line (l : log_line) : bool :=
  match l with AtStart _ _ _ _ _ => true | _ => false end.

(** A call of the outside world that raised. *)
Definition failed (e : event) : bool :=
  match e with
  | EWrite false _ => true
  | EFlush false => true
  | ECurl false _ _ _ _ => true
  | _ => false
  end.

(** The message the program prints when it catches the exception. *)
Definition report (e : event) : message :=
  match e with
  | ECurl _ _ _ _ _ => MsgCurlError
  | _ => MsgLogError
  end.

(** A message that reports no failure of a write or a notification. *)
Definition quiet (m : message) : bool :=
  match m with
  | MsgLogError | MsgCurlError => false
  | _ => true
  end.

(** The traces in which every call that raised is followed at once by
    its message, no such message comes otherwise, every line that was
    written is followed by its flush, and the recap by the write of the
    complete line. *)
Inductive orderly : list event -> Prop :=
| orderly_nil : orderly []
| orderly_print m rest :
    quiet m = true -> orderly rest -> orderly (EPrint m :: rest)
| orderly_open rest : orderly rest -> orderly (EOpen :: rest)
| orderly_sleep s rest : orderly rest -> orderly (ESleep s :: rest)
| orderly_notified a c t g rest :
    orderly rest -> orderly (ECurl true a c t g :: rest)
| orderly_unnotified a c t g rest :
    orderly rest -> orderly (ECurl false a c t g :: EPrint MsgCurlError :: rest)
| orderly_flushed l rest :
    is_recap_line l = false -> orderly rest ->
    orderly (EWrite true l :: EFlush true :: rest)
| orderly_unflushed l rest :
    is_recap_line l = false -> orderly rest ->
    orderly (EWrite true l :: EFlush false :: EPrint MsgLogError :: rest)
| orderly_unwritten l rest :
    orderly rest -> orderly (EWrite false l :: EPrint MsgLogError :: rest)
| orderly_recap l ok c rest :
    is_recap_line l = true -> is_complete_line c = true ->
    orderly (EWrite ok c :: rest) ->
    orderly (EWrite true l :: EWrite ok c :: rest).

(** Everything the computation adds to the trace is orderly. *)
Definition orders {A : Type} (m : M A) : Prop :=
  forall w, exists evs, trace (snd (m w)) = trace w ++ evs /\ orderly evs.

(** ** What a run prints when nothing fails *)

(** The messages of a trace that report no failure of a write or of a
    notification. *)
Definition announced (e : event) : list message :=
  match e with
  | EPrint m => if quiet m then [m] else []
  | _ => []
  end.
Definition announcements (tr : list event) : list message := flat_map announced tr.

(** * Properties *)

Arguments step : simpl never.
Arguments tick : simpl never.
Arguments gravity_change : simpl never.
Arguments adjust : simpl never.
Arguments fahrenheit : simpl never.
Arguments resolved : simpl never.

(** ** Binary64 arithmetic: digits and shifts *)

Lemma digits2_bounds (m : positive) :
  2 ^ (Zpos (digits2_pos m) - 1) <= Zpos m < 2 ^ Zpos (digits2_pos m).
Proof.
  induction m as [m IH|m IH|]; simpl digits2_pos.
  - rewrite Pos2Z.inj_succ. change (Zpos m~1) with (2 * Zpos m + 1).
    replace (Z.succ (Zpos (digits2_pos m)) - 1) with (Z.succ (Zpos (digits2_pos m) - 1)) by lia.
    rewrite !Z.pow_succ_r by lia.
    revert IH. generalize (2 ^ (Zpos (digits2_pos m) - 1)) (2 ^ Zpos (digits2_pos m)). lia.
  - rewrite Pos2Z.inj_succ. change (Zpos m~0) with (2 * Zpos m).
    replace (Z.succ (Zpos (digits2_pos m)) - 1) with (Z.succ (Zpos (digits2_pos m) - 1)) by lia.
    rewrite !Z.pow_succ_r by lia.
    revert IH. generalize (2 ^ (Zpos (digits2_pos m) - 1)) (2 ^ Zpos (digits2_pos m)). lia.
  - simpl. lia.
Qed.

Lemma digits2_le (m : positive) (k : Z) : Zpos m < 2 ^ k -> Zpos (digits2_pos m) <= k.
Proof.
  intros H. destruct (Z.le_gt_cases (Zpos (digits2_pos m)) k) as [L|G]; [exact L|].
  pose proof (digits2_bounds m) as [B _].
  assert (2 ^ k <= 2 ^ (Zpos (digits2_pos m) - 1)).
  { destruct (Z.lt_ge_cases k 0); [rewrite (Z.pow_neg_r 2 k) by lia; apply Z.pow_nonneg; lia|].
    apply Z.pow_le_mono_r; lia. }
  lia.
Qed.

Lemma digits2_ge (m : positive) (k : Z) : 2 ^ k <= Zpos m -> k < Zpos (digits2_pos m).
Proof.
  intros H. destruct (Z.lt_ge_cases k (Zpos (digits2_pos m))) as [L|G]; [exact L|].
  pose proof (digits2_bounds m) as [_ B].
  assert (2 ^ Zpos (digits2_pos m) <= 2 ^ k) by (apply Z.pow_le_mono_r; lia).
  lia.
Qed.

Lemma iter_xO (m d : positive) : Zpos (Pos.iter xO m d) = Zpos m * 2 ^ Zpos d.
Proof.
  change (Pos.iter xO m d) with (shift_pos d m).
  rewrite shift_pos_correct. rewrite Z.mul_comm. reflexivity.
Qed.

Lemma shl_align_spec (mx : positive) (ex e : Z) :
  let '(m, e') := shl_align mx ex e in
  e' = Z.min ex e /\ Zpos m = Zpos mx * 2 ^ (ex - e').
Proof.
  unfold shl_align. destruct (e - ex) as [|d|d] eqn:D.
  - split; [lia|]. rewrite Z.sub_diag. simpl. lia.
  - split; [lia|]. rewrite Z.sub_diag. simpl. lia.
  - split; [lia|]. rewrite iter_xO. f_equal. f_equal. lia.
Qed.

Lemma shr_1_m (r : shr_record) : 0 <= shr_m r -> shr_m (shr_1 r) = Z.div2 (shr_m r).
Proof. destruct r as [[|[p|p|]|p] b s]; simpl; intros H; try reflexivity; lia. Qed.

Lemma iter_shr_m (p : positive) : forall r : shr_record,
  0 <= shr_m r -> shr_m (iter_pos shr_1 p r) = shr_m r / 2 ^ Zpos p.
Proof.
  assert (S1 : forall r, 0 <= shr_m r -> shr_m (shr_1 r) = shr_m r / 2 /\ 0 <= shr_m (shr_1 r)).
  { intros r H. rewrite shr_1_m, Z.div2_div by exact H. split; [reflexivity|]. apply Z.div_pos; lia. }
  assert (Nonneg : forall a k, 0 <= a -> 0 <= a / 2 ^ Zpos k).
  { intros a k H. apply Z.div_pos; [exact H | apply Z.pow_pos_nonneg; lia]. }
  induction p as [p IH|p IH|]; intros r H; simpl iter_pos.
  - destruct (S1 r H) as (E1 & N1).
    rewrite IH, IH, E1 by (rewrite ?IH; auto).
    rewrite !Z.div_div by (try apply Z.pow_pos_nonneg; lia).
    f_equal. change (Zpos p~1) with (2 * Zpos p + 1).
    replace (2 * Zpos p + 1) with (1 + Zpos p + Zpos p) by lia.
    rewrite !Z.pow_add_r by lia. change (2 ^ 1) with 2. ring.
  - rewrite IH, IH by (rewrite ?IH; auto).
    rewrite !Z.div_div by (try apply Z.pow_pos_nonneg; lia).
    f_equal. change (Zpos p~0) with (2 * Zpos p).
    replace (2 * Zpos p) with (Zpos p + Zpos p) by lia.
    rewrite !Z.pow_add_r by lia. ring.
  - apply S1. exact H.
Qed.

Lemma round_nearest_even_bounds (m : Z) (l : location) :
  m <= round_nearest_even m l <= m + 1.
Proof.
  unfold round_nearest_even. destruct l as [|[| |]]; try lia. destruct (Z.even m); lia.
Qed.

(** ** Binary64 arithmetic: rounding *)

Lemma fexp_eq (e : Z) : fexp prec emax e = Z.max (e - 53) (-1074).
Proof. reflexivity. Qed.

Lemma digits2_shift (m : positive) (k : Z) (q : positive) :
  0 <= k -> Zpos q = Zpos m * 2 ^ k ->
  Zpos (digits2_pos q) = Zpos (digits2_pos m) + k.
Proof.
  intros Hk Hq.
  pose proof (digits2_bounds m) as [L U].
  assert (P : 0 < 2 ^ k) by (apply Z.pow_pos_nonneg; lia).
  apply Z.le_antisymm.
  - apply digits2_le. rewrite Hq, Z.pow_add_r by lia.
    apply Z.mul_lt_mono_pos_r; assumption.
  - assert (H : Zpos (digits2_pos m) - 1 + k < Zpos (digits2_pos q)); [| lia].
    apply digits2_ge. rewrite Hq, Z.pow_add_r by lia.
    apply Z.mul_le_mono_nonneg_r; lia.
Qed.

Lemma binary_round_aux_exact (s : bool) (mz : positive) (ez : Z) :
  ez <= fexp prec emax (Zpos (digits2_pos mz) + ez) ->
  exists m2,
    Zpos mz / 2 ^ (fexp prec emax (Zpos (digits2_pos mz) + ez) - ez) <= m2
    /\ m2 <= Zpos mz / 2 ^ (fexp prec emax (Zpos (digits2_pos mz) + ez) - ez) + 1
    /\ binary_round_aux prec emax s (Zpos mz) ez loc_Exact
       = finish s m2 (fexp prec emax (Zpos (digits2_pos mz) + ez)).
Proof.
  intros Hle. unfold binary_round_aux, finish.
  unfold shr_fexp at 1. simpl Zdigits2. simpl shr_record_of_loc.
  set (fe := fexp prec emax (Zpos (digits2_pos mz) + ez)) in *.
  unfold shr. destruct (fe - ez) as [|p|p] eqn:D; try lia.
  - exists (Zpos mz). simpl shr_m. simpl loc_of_shr_record. simpl round_nearest_even.
    rewrite Z.div_1_r. replace ez with fe by lia. split; [lia|]. split; [lia|]. reflexivity.
  - set (r := iter_pos shr_1 p _).
    exists (round_nearest_even (shr_m r) (loc_of_shr_record r)).
    assert (Hr : shr_m r = Zpos mz / 2 ^ Zpos p).
    { unfold r. rewrite iter_shr_m; simpl; [reflexivity | lia]. }
    pose proof (round_nearest_even_bounds (shr_m r) (loc_of_shr_record r)) as [B1 B2].
    rewrite <- Hr. replace (ez + Zpos p) with fe by lia.
    split; [exact B1|]. split; [exact B2|]. reflexivity.
Qed.

Lemma binary_round_exact (s : bool) (M : positive) (ez : Z) :
  let fe := fexp prec emax (Zpos (digits2_pos M) + ez) in
  exists m1 m2,
    (ez <= fe -> m1 = Zpos M / 2 ^ (fe - ez))
    /\ (fe <= ez -> m1 = Zpos M * 2 ^ (ez - fe))
    /\ m1 <= m2 <= m1 + 1
    /\ binary_round prec emax s M ez = finish s m2 fe.
Proof.
  intros fe. unfold binary_round.
  pose proof (shl_align_spec M ez (fexp prec emax (Zpos (digits2_pos M) + ez))) as A.
  fold fe in A |- *.
  destruct (shl_align M ez fe) as [mz ez'].
  destruct A as (He & Hm).
  assert (Hd : Zpos (digits2_pos mz) + ez' = Zpos (digits2_pos M) + ez).
  { rewrite (digits2_shift M (ez - ez') mz) by (lia || exact Hm). lia. }
  destruct (binary_round_aux_exact s mz ez') as (m2 & B1 & B2 & ->);
    rewrite Hd; fold fe; [lia|].
  rewrite Hd in B1, B2. fold fe in B1, B2.
  exists (Zpos mz / 2 ^ (fe - ez')), m2.
  split; [| split; [| split; [lia | reflexivity]]].
  - intros H. replace ez' with ez in * by lia. rewrite Hm, Z.sub_diag, Z.mul_1_r. reflexivity.
  - intros H. replace ez' with fe in * by lia. rewrite Z.sub_diag, Z.div_1_r. exact Hm.
Qed.

(** the second shift *)
Lemma finish_zero (s : bool) (fe : Z) : -1074 <= fe -> finish s 0 fe = S754_zero s.
Proof.
  intros H. unfold finish, shr_fexp. simpl Zdigits2. rewrite fexp_eq.
  unfold shr. destruct (Z.max (0 + fe - 53) (-1074) - fe) eqn:D; try reflexivity. lia.
Qed.

Lemma finish_short (s : bool) (q : positive) (fe : Z) :
  -1074 <= fe -> Zpos (digits2_pos q) <= 53 ->
  finish s (Zpos q) fe = if fe <=? 971 then S754_finite s q fe else S754_infinity s.
Proof.
  intros H Hd. unfold finish, shr_fexp. simpl Zdigits2. rewrite fexp_eq.
  unfold shr. destruct (Z.max (Zpos (digits2_pos q) + fe - 53) (-1074) - fe) eqn:D;
    try reflexivity. lia.
Qed.

Lemma finish_long (s : bool) (q : positive) (fe : Z) :
  -1074 <= fe -> 53 < Zpos (digits2_pos q) ->
  exists m3 : positive,
    Zpos m3 = Zpos q / 2 ^ (Zpos (digits2_pos q) - 53)
    /\ 2 ^ 52 <= Zpos m3
    /\ finish s (Zpos q) fe
       = if fe + (Zpos (digits2_pos q) - 53) <=? 971
         then S754_finite s m3 (fe + (Zpos (digits2_pos q) - 53))
         else S754_infinity s.
Proof.
  intros H Hd. unfold finish, shr_fexp. simpl Zdigits2. rewrite fexp_eq.
  unfold shr. simpl shr_record_of_loc.
  destruct (Z.max (Zpos (digits2_pos q) + fe - 53) (-1074) - fe) as [|p|p] eqn:D; try lia.
  assert (Hp : Zpos p = Zpos (digits2_pos q) - 53) by lia.
  rewrite iter_shr_m by (simpl; lia). simpl shr_m. rewrite <- Hp.
  pose proof (digits2_bounds q) as [L U].
  assert (B : 2 ^ 52 <= Zpos q / 2 ^ Zpos p).
  { apply Z.div_le_lower_bound; [apply Z.pow_pos_nonneg; lia|].
    rewrite <- Z.pow_add_r by lia.
    replace (Zpos p + 52) with (Zpos (digits2_pos q) - 1) by lia. exact L. }
  destruct (Zpos q / 2 ^ Zpos p) as [|m3|m3] eqn:Q; try (exfalso; change (2 ^ 52) with 4503599627370496 in B; lia).
  exists m3. split; [reflexivity|]. split; [exact B|]. reflexivity.
Qed.

Lemma bounded_canonical (m : positive) (e : Z) :
  bounded prec emax m e = true ->
  Z.max (Zpos (digits2_pos m) + e - 53) (-1074) = e /\ e <= 971.
Proof.
  unfold bounded, canonical_mantissa. rewrite andb_true_iff, Z.eqb_eq, Z.leb_le.
  rewrite fexp_eq. intros [H1 H2]. split; [exact H1 | exact H2].
Qed.

Lemma pow2_pos (k : Z) : 0 <= k -> 0 < 2 ^ k.
Proof. intros. apply Z.pow_pos_nonneg; lia. Qed.

Lemma round_below (s : bool) (M : positive) (ez : Z) (mg : positive) (eg : Z) :
  bounded prec emax mg eg = true ->
  ez <= eg ->
  Zpos M < Zpos mg * 2 ^ (eg - ez) ->
  below s mg eg (binary_round prec emax s M ez).
Proof.
  intros Hb Hez HM.
  apply bounded_canonical in Hb as (Hc & Hmax).
  pose proof (digits2_bounds mg) as [Lg Ug].
  pose proof (digits2_bounds M) as [LM UM].
  destruct (binary_round_exact s M ez) as (m1 & m2 & HA & HB & Hm2 & ->).
  rewrite fexp_eq in *.
  set (dM := Zpos (digits2_pos M)) in *. set (dg := Zpos (digits2_pos mg)) in *.
  set (fe := Z.max (dM + ez - 53) (-1074)) in *.
  assert (Hmag : dM + ez <= dg + eg).
  { assert (dM <= dg + (eg - ez)); [| lia].
    apply digits2_le. rewrite Z.pow_add_r by lia.
    eapply Z.lt_trans; [exact HM|]. apply Z.mul_lt_mono_pos_r; [apply pow2_pos; lia | exact Ug]. }
  assert (Hfe : fe <= eg) by lia.
  assert (Hfe0 : -1074 <= fe) by lia.
  (* the truncated mantissa is shorter than 53 bits, and below mg at eg *)
  assert (H53 : m1 < 2 ^ 53).
  { destruct (Z.le_gt_cases ez fe) as [A|B].
    - rewrite (HA A). apply Z.div_lt_upper_bound; [apply pow2_pos; lia|].
      rewrite <- Z.pow_add_r by lia. eapply Z.lt_le_trans; [exact UM|].
      apply Z.pow_le_mono_r; lia.
    - rewrite HB by lia. eapply Z.lt_le_trans.
      + apply Z.mul_lt_mono_pos_r; [apply pow2_pos; lia | exact UM].
      + rewrite <- Z.pow_add_r by lia. apply Z.pow_le_mono_r; lia. }
  assert (Heq : fe = eg -> m1 < Zpos mg).
  { intros E. rewrite HA by lia. rewrite E.
    apply Z.div_lt_upper_bound; [apply pow2_pos; lia|]. lia. }
  assert (H0 : 0 <= m1).
  { destruct (Z.le_gt_cases ez fe) as [A|B].
    - rewrite (HA A). apply Z.div_pos; [lia | apply pow2_pos; lia].
    - rewrite HB by lia. apply Z.mul_nonneg_nonneg; [lia|]. apply Z.lt_le_incl, pow2_pos. lia. }
  destruct m2 as [|q|q]; try lia.
  - left. apply finish_zero. exact Hfe0.
  - right. destruct (Z.le_gt_cases (Zpos (digits2_pos q)) 53) as [Short|Long].
    + rewrite finish_short by assumption.
      replace (fe <=? 971) with true by (symmetry; apply Z.leb_le; lia).
      exists q, fe. split; [reflexivity|].
      destruct (Z.eq_dec fe eg) as [E|N]; [right | left; lia].
      split; [exact E|]. specialize (Heq E). lia.
    + destruct (finish_long s q fe Hfe0 Long) as (m3 & H3 & B3 & ->).
      (* rounding has carried into bit 54: the mantissa is 2^53 *)
      assert (Hq : Zpos q = 2 ^ 53).
      { pose proof (digits2_bounds q) as [Lq _].
        assert (2 ^ 53 <= 2 ^ (Zpos (digits2_pos q) - 1)) by (apply Z.pow_le_mono_r; lia).
        lia. }
      assert (Hdq : Zpos (digits2_pos q) = 54).
      { apply Z.le_antisymm; [| lia]. apply digits2_le. rewrite Hq. reflexivity. }
      rewrite Hdq in *. change (54 - 53) with 1 in *.
      assert (Hg53 : Zpos mg < 2 ^ 53).
      { eapply Z.lt_le_trans; [exact Ug|]. apply Z.pow_le_mono_r; lia. }
      assert (Hne : fe <> eg) by (intros E; specialize (Heq E); lia).
      replace (fe + 1 <=? 971) with true by (symmetry; apply Z.leb_le; lia).
      exists m3, (fe + 1). split; [reflexivity|].
      destruct (Z.eq_dec (fe + 1) eg) as [E|N]; [right | left; lia].
      split; [exact E|].
      rewrite H3, Hq. change (2 ^ 53 / 2 ^ 1) with (2 ^ 52).
      (* eg is above the least exponent, so mg has all its 53 bits *)
      assert (dg = 53) by lia.
      replace (dg - 1) with 52 in Lg by lia. exact Lg.
Qed.

Lemma round_above (s : bool) (M : positive) (ez : Z) (mg : positive) (eg : Z) :
  bounded prec emax mg eg = true ->
  ez <= eg ->
  Zpos mg * 2 ^ (eg - ez) <= Zpos M ->
  above s mg eg (binary_round prec emax s M ez).
Proof.
  intros Hb Hez HM.
  apply bounded_canonical in Hb as (Hc & Hmax).
  pose proof (digits2_bounds mg) as [Lg Ug].
  pose proof (digits2_bounds M) as [LM UM].
  destruct (binary_round_exact s M ez) as (m1 & m2 & HA & HB & Hm2 & ->).
  rewrite fexp_eq in *.
  set (dM := Zpos (digits2_pos M)) in *. set (dg := Zpos (digits2_pos mg)) in *.
  set (fe := Z.max (dM + ez - 53) (-1074)) in *.
  assert (Hmag : dg + eg <= dM + ez).
  { assert (dg - 1 + (eg - ez) < dM); [| lia].
    apply digits2_ge. rewrite Z.pow_add_r by lia.
    eapply Z.le_trans; [| exact HM].
    apply Z.mul_le_mono_nonneg_r; [apply Z.lt_le_incl, pow2_pos; lia | exact Lg]. }
  assert (Hfe : eg <= fe) by lia.
  assert (Hfe0 : -1074 <= fe) by lia.
  assert (Hm1 : m1 = Zpos M / 2 ^ (fe - ez)) by (apply HA; lia).
  assert (Heq : fe = eg -> Zpos mg <= m1).
  { intros E. rewrite Hm1, E.
    apply Z.div_le_lower_bound; [apply pow2_pos; lia|]. lia. }
  assert (Hgt : eg < fe -> 2 ^ 52 <= m1).
  { intros G. rewrite Hm1.
    apply Z.div_le_lower_bound; [apply pow2_pos; lia|].
    rewrite <- Z.pow_add_r by lia.
    replace (fe - ez + 52) with (dM - 1) by lia. exact LM. }
  assert (H1 : 1 <= m1).
  { destruct (Z.eq_dec fe eg) as [E|N]; [specialize (Heq E); lia|].
    assert (G : eg < fe) by lia. specialize (Hgt G).
    change (2 ^ 52) with 4503599627370496 in Hgt. lia. }
  destruct m2 as [|q|q]; try lia.
  destruct (Z.le_gt_cases (Zpos (digits2_pos q)) 53) as [Short|Long].
  - rewrite finish_short by assumption.
    destruct (fe <=? 971); [right | left; reflexivity].
    exists q, fe. split; [reflexivity|].
    destruct (Z.eq_dec fe eg) as [E|N]; [right | left; lia].
    split; [exact E|]. specialize (Heq E). lia.
  - destruct (finish_long s q fe Hfe0 Long) as (m3 & H3 & B3 & ->).
    destruct (_ <=? 971); [right | left; reflexivity].
    exists m3, (fe + (Zpos (digits2_pos q) - 53)). split; [reflexivity|]. left. lia.
Qed.

(** ** Binary64 arithmetic: order and subtraction *)

Lemma finish_signed (s : bool) (m fe : Z) : signed s (finish s m fe).
Proof.
  unfold finish. destruct (shr_fexp prec emax m fe loc_Exact) as [r e].
  destruct (shr_m r); simpl; auto. destruct (e <=? _); simpl; auto.
Qed.

Lemma binary_round_signed (s : bool) (M : positive) (e : Z) :
  signed s (binary_round prec emax s M e).
Proof.
  destruct (binary_round_exact s M e) as (m1 & m2 & _ & _ & _ & ->). apply finish_signed.
Qed.

Lemma binary_round_aux_signed (s : bool) (m e : Z) (l : location) :
  signed s (binary_round_aux prec emax s m e l).
Proof.
  unfold binary_round_aux.
  destruct (shr_fexp prec emax m e l) as [r1 e1].
  destruct (shr_fexp prec emax _ e1 loc_Exact) as [r2 e2].
  destruct (shr_m r2); simpl; auto. destruct (e2 <=? _); simpl; auto.
Qed.

Lemma signed_nonneg (x : spec_float) : signed false x -> nonneg x.
Proof. destruct x; simpl; auto. Qed.

Lemma binary_normalize_nonneg (M e : Z) :
  0 <= M -> nonneg (binary_normalize prec emax M e false).
Proof.
  intros H. destruct M as [|p|p]; simpl; try lia; auto.
  apply signed_nonneg, binary_round_signed.
Qed.

(** the magnitudes of two canonical pairs, brought to one exponent,
    compare as the pairs do *)
Lemma aligned (m : positive) (e ez : Z) :
  ez <= e -> Zpos (fst (shl_align m e ez)) = Zpos m * 2 ^ (e - ez).
Proof.
  intros H. pose proof (shl_align_spec m e ez) as A.
  destruct (shl_align m e ez) as [m' e']. destruct A as (He & Hm).
  simpl. rewrite Hm, He, Z.min_r by lia. reflexivity.
Qed.

Lemma compare_magnitude (mx : positive) (ex : Z) (my : positive) (ey : Z) :
  bounded prec emax mx ex = true ->
  bounded prec emax my ey = true ->
  match ex ?= ey with
  | Lt => Lt
  | Gt => Gt
  | Eq => Pos.compare_cont Eq mx my
  end
  = (Zpos mx * 2 ^ (ex - Z.min ex ey) ?= Zpos my * 2 ^ (ey - Z.min ex ey)).
Proof.
  intros Hx Hy.
  apply bounded_canonical in Hx as (Cx & _). apply bounded_canonical in Hy as (Cy & _).
  pose proof (digits2_bounds mx) as [Lx Ux]. pose proof (digits2_bounds my) as [Ly Uy].
  assert (Big : forall (m m' : positive) (e e' : Z),
            Z.max (Zpos (digits2_pos m) + e - 53) (-1074) = e ->
            Z.max (Zpos (digits2_pos m') + e' - 53) (-1074) = e' ->
            e < e' -> Zpos m < Zpos m' * 2 ^ (e' - e)).
  { intros m m' e e' C C' Hlt.
    pose proof (digits2_bounds m) as [_ U]. pose proof (digits2_bounds m') as [L _].
    assert (Zpos (digits2_pos m') = 53) by lia.
    assert (Zpos (digits2_pos m) <= 53) by lia.
    assert (H53 : Zpos m < 2 ^ 53).
    { eapply Z.lt_le_trans; [exact U|]. apply Z.pow_le_mono_r; lia. }
    assert (H52 : 2 ^ 52 <= Zpos m') by (replace 52 with (Zpos (digits2_pos m') - 1) by lia; exact L).
    assert (H2 : 2 ^ 1 <= 2 ^ (e' - e)) by (apply Z.pow_le_mono_r; lia).
    change (2 ^ 1) with 2 in H2. change (2 ^ 53) with (2 ^ 52 * 2) in H53.
    eapply Z.lt_le_trans; [exact H53|].
    apply Z.mul_le_mono_nonneg; lia. }
  destruct (Z.compare_spec ex ey) as [E|L|G].
  - subst ey. rewrite Z.min_id, Z.sub_diag, !Z.mul_1_r. reflexivity.
  - rewrite Z.min_l, Z.sub_diag, Z.mul_1_r by lia. symmetry. apply Z.compare_lt_iff.
    apply Big; assumption.
  - rewrite Z.min_r, Z.sub_diag, Z.mul_1_r by lia. symmetry. apply Z.compare_gt_iff.
    apply Big; assumption.
Qed.

Lemma compare_finite (sx : bool) (mx : positive) (ex : Z) (sy : bool) (my : positive) (ey : Z) :
  bounded prec emax mx ex = true ->
  bounded prec emax my ey = true ->
  SFcompare (S754_finite sx mx ex) (S754_finite sy my ey)
  = Some (cond_Zopp sx (Zpos (fst (shl_align mx ex (Z.min ex ey))))
          ?= cond_Zopp sy (Zpos (fst (shl_align my ey (Z.min ex ey))))).
Proof.
  intros Hx Hy.
  rewrite !aligned by lia.
  pose proof (compare_magnitude mx ex my ey Hx Hy) as C.
  assert (Px : 0 < Zpos mx * 2 ^ (ex - Z.min ex ey)) by (apply Z.mul_pos_pos; [lia | apply pow2_pos; lia]).
  assert (Py : 0 < Zpos my * 2 ^ (ey - Z.min ex ey)) by (apply Z.mul_pos_pos; [lia | apply pow2_pos; lia]).
  revert C Px Py.
  generalize (Zpos mx * 2 ^ (ex - Z.min ex ey)) (Zpos my * 2 ^ (ey - Z.min ex ey)).
  intros X Y C Px Py.
  destruct sx, sy; simpl.
  - rewrite Z.compare_opp, (Z.compare_antisym X Y), <- C.
    destruct (ex ?= ey); reflexivity.
  - f_equal. symmetry. apply Z.compare_lt_iff. lia.
  - f_equal. symmetry. apply Z.compare_gt_iff. lia.
  - rewrite <- C. reflexivity.
Qed.

Lemma SFsub_self_nonneg (x : spec_float) : nonneg (SFsub prec emax x x).
Proof.
  destruct x as [[|]|[|]| |s m e]; simpl; auto.
  rewrite Z.sub_diag. simpl. exact I.
Qed.

Lemma SFsub_lt_nonneg (x y : spec_float) :
  valid_binary x = true -> valid_binary y = true ->
  SFcompare y x = Some Lt ->
  nonneg (SFsub prec emax x y).
Proof.
  intros Vx Vy.
  destruct x as [sx|sx| |sx mx ex], y as [sy|sy| |sy my ey]; simpl;
    try discriminate; try tauto;
    try (destruct sx; simpl; intros; try discriminate; auto; fail);
    try (destruct sy; simpl; intros; try discriminate; auto; fail);
    try (destruct sx, sy; simpl; intros; try discriminate; auto; fail).
  intros C. simpl in Vx, Vy.
  change (SFcompare (S754_finite sy my ey) (S754_finite sx mx ex) = Some Lt) in C.
  rewrite (compare_finite sy my ey sx mx ex Vy Vx) in C.
  injection C as C. apply (proj1 (Z.compare_lt_iff _ _)) in C.
  rewrite Z.min_comm in C.
  apply binary_normalize_nonneg. lia.
Qed.

Lemma below_le (s : bool) (mg : positive) (eg : Z) (r : spec_float) :
  s = false -> below s mg eg r -> SFle r (S754_finite s mg eg).
Proof.
  intros -> [-> | (m & e & -> & H)]; unfold SFle; simpl; [now left|].
  destruct H as [L | (-> & L)].
  - apply Z.compare_lt_iff in L. rewrite L. now left.
  - rewrite Z.compare_refl.
    destruct (Pos.compare_spec m mg) as [E|Lt|Gt];
      rewrite ?Pos.compare_cont_spec; unfold Pos.switch_Eq;
      [subst; rewrite Pos.compare_refl; now right
      | apply Pos.compare_lt_iff in Lt; rewrite Lt; now left
      | lia].
Qed.

Lemma above_le (s : bool) (mg : positive) (eg : Z) (r : spec_float) :
  s = true -> above s mg eg r -> SFle r (S754_finite s mg eg).
Proof.
  intros -> [-> | (m & e & -> & H)]; unfold SFle; simpl; [now left|].
  destruct H as [L | (-> & L)].
  - apply Z.compare_gt_iff in L. rewrite L. now left.
  - rewrite Z.compare_refl.
    destruct (Pos.compare_spec m mg) as [E|Lt|Gt];
      rewrite ?Pos.compare_cont_spec; unfold Pos.switch_Eq;
      [subst; rewrite Pos.compare_refl; now right
      | lia
      | apply Pos.compare_gt_iff in Gt; rewrite Gt; now left].
Qed.

(** taking a non-negative number away does not make a number larger *)
Lemma SFsub_nonneg_le (g c : spec_float) :
  valid_binary g = true -> valid_binary c = true ->
  nonneg c ->
  SFsub prec emax g c = S754_nan \/ SFle (SFsub prec emax g c) g.
Proof.
  intros Vg Vc Nc. unfold SFle.
  destruct g as [sg|sg| |sg mg eg], c as [sc|sc| |sc mc ec]; simpl in Nc |- *;
    try (now left); subst;
    try (destruct sg; simpl; auto; fail);
    try (destruct sg, sc; simpl; auto; fail).
  - (* a finite number from which zero is taken *)
    right. right. destruct sg; rewrite Z.compare_refl, Pos.compare_cont_refl; reflexivity.
  - (* finite and finite *)
    simpl in Vg, Vc.
    set (ez := Z.min eg ec).
    assert (Ag : Zpos (fst (shl_align mg eg ez)) = Zpos mg * 2 ^ (eg - ez)) by (apply aligned; lia).
    assert (Pc : 0 < Zpos (fst (shl_align mc ec ez))) by lia.
    rewrite Ag. revert Pc. generalize (Zpos (fst (shl_align mc ec ez))). intros C Pc.
    change (cond_Zopp false C) with C.
    assert (Pg : 0 < Zpos mg * 2 ^ (eg - ez))
      by (apply Z.mul_pos_pos; [lia | apply pow2_pos; lia]).
    assert (Hez : ez <= eg) by lia.
    remember (Zpos mg * 2 ^ (eg - ez)) as X eqn:HX.
    destruct (cond_Zopp sg X - C) as [|p|p] eqn:M; unfold cond_Zopp in M.
    + (* the difference is zero: the number was positive *)
      destruct sg; [lia|]. right. left. reflexivity.
    + destruct sg; [lia|].
      right. apply (below_le false mg eg _ eq_refl).
      apply round_below; [exact Vg | exact Hez | rewrite <- HX; lia].
    + destruct sg.
      * right. apply (above_le true mg eg _ eq_refl).
        apply round_above; [exact Vg | exact Hez | rewrite <- HX; lia].
      * pose proof (binary_round_signed true p ez) as S.
        simpl binary_normalize.
        destruct (binary_round prec emax true p ez) as [s|s| |s m e]; simpl in S |- *;
          subst; auto.
Qed.

(** ** Binary64 arithmetic: division and conversion *)

Lemma SFdiv_nonneg (x y : spec_float) :
  nonneg x -> nonneg y -> (forall s, y <> S754_zero s) ->
  nonneg (SFdiv prec emax x y).
Proof.
  intros Nx Ny Hz.
  destruct x as [sx|sx| |sx mx ex], y as [sy|sy| |sy my ey]; simpl in *; subst; auto;
    try (exfalso; apply (Hz sy); reflexivity).
  destruct (SFdiv_core_binary prec emax (Zpos mx) ex (Zpos my) ey) as [[mz ez] lz].
  apply signed_nonneg. apply (binary_round_aux_signed false).
Qed.

Lemma SFldexp_nonneg (x : spec_float) (e : Z) : nonneg x -> nonneg (SFldexp prec emax x e).
Proof.
  destruct x as [s|s| |s m ex]; simpl; auto.
  intros ->. apply signed_nonneg, binary_round_signed.
Qed.

Lemma of_uint63_nonneg (i : PrimInt63.int) : nonneg (Prim2SF (of_uint63 i)).
Proof.
  rewrite of_uint63_spec. apply binary_normalize_nonneg.
  apply Uint63.to_Z_bounded.
Qed.

Lemma SF2Prim_nonneg (x : spec_float) : nonneg x -> nonneg (Prim2SF (SF2Prim x)).
Proof.
  destruct x as [[|]|s| |s m e]; simpl; auto.
  - intros ->. exact eq_refl.
  - intros ->. rewrite FloatLemmas.Z_ldexp_spec. apply SFldexp_nonneg, of_uint63_nonneg.
Qed.

(** ** Binary64 arithmetic: the primitive operations *)

Lemma ltb_leb (x y : float) : (x <? y)%float = true -> (x <=? y)%float = true.
Proof.
  rewrite ltb_spec, leb_spec. unfold SFltb, SFleb.
  destruct (SFcompare (Prim2SF x) (Prim2SF y)) as [[| |]|]; auto.
Qed.

Lemma SFcompare_refl (x : spec_float) : x <> S754_nan -> SFcompare x x = Some Eq.
Proof.
  destruct x as [s|[|]| |[|] m e]; simpl; try tauto;
    rewrite Z.compare_refl, Pos.compare_cont_refl; reflexivity.
Qed.

(** a number that compares at all is at most itself *)
Lemma leb_refl_l (x y : float) : (x <=? y)%float = true -> (x <=? x)%float = true.
Proof.
  rewrite !leb_spec. unfold SFleb. intros H.
  rewrite SFcompare_refl; [reflexivity|].
  intros E. rewrite E in H. discriminate.
Qed.

Lemma leb_refl_r (x y : float) : (x <=? y)%float = true -> (y <=? y)%float = true.
Proof.
  rewrite !leb_spec. unfold SFleb. intros H.
  rewrite SFcompare_refl; [reflexivity|].
  intros E. rewrite E in H. destruct (Prim2SF x); discriminate.
Qed.

Lemma leb_refl (x : float) : is_nan x = false -> (x <=? x)%float = true.
Proof.
  unfold is_nan. rewrite negb_false_iff, eqb_spec, leb_spec. unfold SFeqb, SFleb.
  destruct (SFcompare (Prim2SF x) (Prim2SF x)) as [[| |]|]; auto.
Qed.

Lemma SFcompare_antisym (x y : spec_float) :
  SFcompare y x = option_map CompOpp (SFcompare x y).
Proof.
  destruct x as [sx|sx| |sx mx ex], y as [sy|sy| |sy my ey];
    try reflexivity; try (destruct sx; reflexivity); try (destruct sy; reflexivity);
    try (destruct sx, sy; reflexivity).
  pose proof (Pos.compare_cont_antisym mx my Eq) as A. simpl in A.
  simpl. destruct sx, sy; try reflexivity;
    rewrite (Z.compare_antisym ex ey);
    destruct (ex ?= ey); simpl; try reflexivity;
    rewrite <- A; destruct (Pos.compare_cont Eq mx my); reflexivity.
Qed.

(** what is at most [x] is not above [x] *)
Lemma leb_not_ltb (x y : float) : (y <=? x)%float = true -> (x <? y)%float = false.
Proof.
  rewrite leb_spec, FloatAxioms.ltb_spec. unfold SFleb, SFltb.
  rewrite (SFcompare_antisym (Prim2SF y) (Prim2SF x)).
  destruct (SFcompare (Prim2SF y) (Prim2SF x)) as [[| |]|]; simpl; auto; discriminate.
Qed.

Lemma is_nan_spec (x : float) : is_nan x = true -> Prim2SF x = S754_nan.
Proof.
  unfold is_nan. rewrite negb_true_iff, eqb_spec. unfold SFeqb. intros H.
  destruct (Prim2SF x) eqn:P; try reflexivity;
    rewrite SFcompare_refl in H by discriminate; discriminate.
Qed.

Lemma ltb_nan_l (x y : float) : is_nan x = true -> (x <? y)%float = false.
Proof. intros H. rewrite FloatAxioms.ltb_spec, (is_nan_spec x H). reflexivity. Qed.

Lemma ltb_nan_r (x y : float) : is_nan y = true -> (x <? y)%float = false.
Proof.
  intros H. rewrite FloatAxioms.ltb_spec, (is_nan_spec y H).
  destruct (Prim2SF x); reflexivity.
Qed.

Lemma sub_nonneg_leb (g c : float) :
  nonneg (Prim2SF c) ->
  Prim2SF (g - c) = S754_nan \/ (g - c <=? g)%float = true.
Proof.
  intros N. rewrite leb_spec, sub_spec. unfold SFleb.
  destruct (SFsub_nonneg_le (Prim2SF g) (Prim2SF c) (Prim2SF_valid g) (Prim2SF_valid c) N)
    as [H | [H | H]]; [left; exact H | right; unfold SF64sub; rewrite H; reflexivity ..].
Qed.

Lemma sub_self_nonneg (x : float) : nonneg (Prim2SF (x - x)).
Proof. rewrite sub_spec. apply SFsub_self_nonneg. Qed.

Lemma sub_lt_nonneg (x y : float) : (y <? x)%float = true -> nonneg (Prim2SF (x - y)).
Proof.
  rewrite ltb_spec, sub_spec. unfold SFltb. intros H.
  apply SFsub_lt_nonneg; try apply Prim2SF_valid.
  destruct (SFcompare (Prim2SF y) (Prim2SF x)) as [[| |]|]; try discriminate. reflexivity.
Qed.

Lemma div_nonneg (x y : float) :
  nonneg (Prim2SF x) -> nonneg (Prim2SF y) -> (y =? 0)%float = false ->
  nonneg (Prim2SF (x / y)).
Proof.
  intros Nx Ny Hz. rewrite div_spec. apply SFdiv_nonneg; try assumption.
  intros s E. rewrite eqb_spec, E in Hz. destruct s; discriminate.
Qed.


(** ** What the functions add to the trace *)


Lemma readings_app (a b : list event) : readings (a ++ b) = readings a ++ readings b.
Proof. apply flat_map_app. Qed.

Lemma randoms_app (a b : list event) : randoms (a ++ b) = randoms a ++ randoms b.
Proof. apply flat_map_app. Qed.

Section Footprint.
Variable E : Env.

Lemma adds_refl w : adds E w w [].
Proof. exists []. rewrite app_nil_r. repeat split; reflexivity. Qed.

Lemma adds_trans w1 w2 w3 rs rs' :
  adds E w1 w2 rs -> adds E w2 w3 rs' -> adds E w1 w3 (rs ++ rs').
Proof.
  intros (e1 & H1 & R1 & N1 & C1) (e2 & H2 & R2 & N2 & C2).
  exists (e1 ++ e2). rewrite H2, H1, app_assoc, readings_app, randoms_app, R1, R2, N1, N2.
  repeat split; try reflexivity.
  intros F. rewrite forallb_app, C1, C2 by assumption. reflexivity.
Qed.

Lemma adds_eq w w' rs rs' : adds E w w' rs -> rs = rs' -> adds E w w' rs'.
Proof. now intros H <-. Qed.

(** a failed call is no part of a world where nothing fails *)
Lemma fault_free_not k : fails E k = true -> fault_free E -> False.
Proof. intros H F. rewrite F in H. discriminate. Qed.

Ltac run_monad :=
  unfold update_log, execute_curl_command, file_write, file_flush, subprocess_run,
    try_except, bind, ret, raise, lift, emit, ask; simpl.

Ltac solve_adds :=
  unfold adds; simpl; eexists;
  split; [ first [ rewrite <- ?app_assoc; simpl; reflexivity
                 | symmetry; apply app_nil_r ]
         | simpl; repeat split; try reflexivity;
           intros ?; try (exfalso; eauto using fault_free_not); try reflexivity ].

Lemma update_log_start D ts v f c g s o w :
  exists w', update_log E D ts v f c g s o true false w = (Py.Ok tt, w')
    /\ adds E w w' [mkReading SrcStart f g].
Proof.
  run_monad.
  destruct (fails E (asked w)) eqn:F1; simpl;
    [| destruct (fails E (S (asked w))) eqn:F2; simpl];
    (eexists; split; [reflexivity | solve_adds]).
Qed.

Lemma update_log_tick D ts v f c g s o w :
  exists w', update_log E D ts v f c g s o false false w = (Py.Ok tt, w')
    /\ adds E w w' [mkReading SrcTick f g].
Proof.
  run_monad.
  destruct (fails E (asked w)) eqn:F1; simpl;
    [| destruct (fails E (S (asked w))) eqn:F2; simpl];
    (eexists; split; [reflexivity | solve_adds]).
Qed.

Lemma update_log_end D ts v f c g s o w :
  exists w' fin, update_log E D ts v f c g s o false true w = (Py.Ok tt, w')
    /\ adds E w w' (mkReading SrcRecap s o :: fin)
    /\ (fin = [] \/ fin = [mkReading SrcFinal f g])
    /\ (fault_free E -> fin = [mkReading SrcFinal f g]).
Proof.
  run_monad.
  destruct (fails E (asked w)) eqn:F1; simpl.
  - exists (mkWorld ((trace w ++ [EWrite false (AtStart ts v s o c)]) ++ [EPrint MsgLogError]) (S (asked w))), [].
    split; [reflexivity|]. split; [solve_adds|]. split; [now left|].
    intros F; exfalso; eauto using fault_free_not.
  - destruct (fails E (S (asked w))) eqn:F2; simpl;
      [| destruct (fails E (S (S (asked w)))) eqn:F3; simpl ];
      (eexists; exists [mkReading SrcFinal f g]; split; [reflexivity|];
       split; [solve_adds|]; split; [now right | reflexivity]).
Qed.

Lemma execute_curl_command_spec a c f g w :
  exists w', execute_curl_command E a c f g w = (Py.Ok tt, w')
    /\ adds E w w' [mkReading SrcHttp f g].
Proof.
  run_monad.
  destruct (fails E (asked w)) eqn:F1; simpl;
    (eexists; split; [reflexivity | solve_adds]).
Qed.

Lemma tick_spec D dir tcpi final n start_time stf i st w :
  exists w',
    adds E w w' (fst (step D dir tcpi final n i (values_of st)))
    /\ match snd (step D dir tcpi final n i (values_of st)) with
       | Py.Ok s' => exists st', tick E D dir tcpi final n start_time stf i st w = (Py.Ok st', w')
                                 /\ values_of st' = s'
       | Py.Raise e => tick E D dir tcpi final n start_time stf i st w = (Py.Raise e, w')
       end.
Proof.
  unfold tick, step, values_of, bind, lift, ask. simpl.
  destruct (adjust dir tcpi (start_temp st)) as [t|e]; simpl;
    [| exists w; split; [apply adds_refl | reflexivity]].
  destruct (fahrenheit t) as [f|e]; simpl;
    [| exists w; split; [apply adds_refl | reflexivity]].
  set (w1 := mkWorld (trace w) (S (asked w))).
  assert (A1 : adds E w w1 []) by (subst w1; solve_adds).
  destruct (update_log_tick D (now E (asked w)) script_version f (color D) (gravity st) stf (og D) w1)
    as (w2 & -> & A2).
  destruct (execute_curl_command_spec (ip D) (color D) f (gravity st) w2) as (w3 & -> & A3).
  assert (A : adds E w w3 [mkReading SrcTick f (gravity st); mkReading SrcHttp f (gravity st)]).
  { apply (adds_trans w w1 w3 [] _ A1). apply (adds_trans w1 w2 w3 [_] [_] A2 A3). }
  destruct (gravity_change (og D) final n) as [ch|e]; simpl;
    [| exists w3; split; [exact A | reflexivity]].
  destruct (Py.float_of_int (i + 1)) as [fi|e]; simpl.
  2:{ eexists; split; [| reflexivity].
      apply (adds_trans w w3 _ _ [] A). solve_adds. }
  unfold ret, emit.
  destruct (0 <? fi - (clock E (asked w3) - start_time))%float; simpl;
    (eexists; split; [| eexists; split; [reflexivity | reflexivity]]);
    (apply (adds_trans w w3 _ _ [] A); solve_adds).
Qed.

Lemma loop_spec D dir end_temp tcpi final n start_time stf fuel :
  forall i st w,
  exists w',
    adds E w w' (fst (steps D dir end_temp tcpi final n fuel i (values_of st)))
    /\ match snd (steps D dir end_temp tcpi final n fuel i (values_of st)) with
       | Py.Ok s' => exists st', loop E D dir end_temp tcpi final n start_time stf fuel i st w = (Py.Ok st', w')
                                 /\ values_of st' = s'
       | Py.Raise e => loop E D dir end_temp tcpi final n start_time stf fuel i st w = (Py.Raise e, w')
       end.
Proof.
  induction fuel as [|fuel IH]; intros i st w; simpl.
  - exists w. split; [apply adds_refl|]. exists st. split; reflexivity.
  - change (fst (fst (values_of st))) with (start_temp st).
    destruct (reached dir end_temp (start_temp st)); simpl.
    + exists w. split; [apply adds_refl|]. exists st. split; reflexivity.
    + destruct (tick_spec D dir tcpi final n start_time stf i st w) as (w1 & A1 & T).
      unfold bind.
      destruct (step D dir tcpi final n i (values_of st)) as [rs [s'|e]]; simpl in *.
      * destruct T as (st' & -> & <-).
        destruct (IH (i + 1) st' w1) as (w2 & A2 & L).
        destruct (steps D dir end_temp tcpi final n fuel (i + 1) (values_of st')) as [rs' r]; simpl in *.
        exists w2. split; [eapply adds_trans; eauto | exact L].
      * exists w1. rewrite T. split; [assumption | reflexivity].
Qed.

Lemma resolve_spec args w :
  if unreadable E args then resolve E args w = (Py.Raise Py.OSError, w)
  else exists w', resolve E args w = (Py.Ok (resolved E args), w') /\ adds E w w' [].
Proof.
  unfold unreadable, resolve, resolved, read_config_file, bind, ret, raise, emit.
  destruct (a_config args) as [path|]; simpl.
  - destruct (String.length path =? 0)%nat; simpl.
    + exists w. split; [reflexivity | apply adds_refl].
    + destruct (files E path); simpl;
        try (eexists; split; [reflexivity | solve_adds]).
      reflexivity.
  - exists w. split; [reflexivity | apply adds_refl].
Qed.

Lemma main_spec args w :
  exists w' fin,
    main E args w = (expected_outcome E args, w')
    /\ adds E w w' (expected E args ++ fin)
    /\ (fin = [] \/ fin = expected_final E args)
    /\ (fault_free E -> fin = expected_final E args).
Proof.
  unfold main, expected_outcome, expected, expected_final, expected_outcome.
  pose proof (resolve_spec args w) as R.
  unfold bind at 1.
  destruct (unreadable E args).
  { rewrite R. exists w, []. repeat split; auto using adds_refl. }
  destruct R as (w1 & -> & A1).
  generalize (resolved E args). intros D.
  unfold plan, planned_loop, bind, lift, ask. simpl.
  destruct (milli_celsius (starttemp D)) as [s|e]; simpl;
    [| exists w1, []; repeat split; auto ].
  destruct (milli_celsius (finaltemp D)) as [e|e']; simpl;
    [| exists w1, []; repeat split; auto ].
  destruct (Py.int_truediv (e - s) (time D * 60)) as [c|e']; simpl;
    [| exists w1, []; repeat split; auto ].
  destruct (fahrenheit (Py.Int s)) as [f|e']; simpl;
    [| eexists; exists []; repeat split; auto;
       apply (adds_trans w w1 _ [] [] A1); solve_adds ].
  unfold emit at 1. simpl.
  destruct (log_opens E); simpl; unfold raise, emit; simpl;
    [| eexists; exists []; repeat split; auto;
       apply (adds_trans w w1 _ [] [] A1); solve_adds ].
  match goal with |- context [update_log E D ?ts ?v f ?c ?g ?sf ?o true false ?w2] =>
    destruct (update_log_start D ts v f c g sf o w2) as (w3 & -> & A3);
    assert (A2 : adds E w1 w2 []) by solve_adds
  end.
  assert (A : adds E w w3 [mkReading SrcStart f (Py.max (og D) (fg D))]).
  { apply (adds_trans w w1 w3 [] _ A1). apply (adds_trans _ _ w3 [] _ A2 A3). }
  clear A1 A2 A3.
  match goal with |- context [loop E D ?dir e c ?fin ?n ?st ?sf ?fuel 0 ?loc w3] =>
    destruct (loop_spec D dir e c fin n st sf fuel 0 loc w3) as (w4 & A4 & L);
    change (values_of loc) with (Py.Int s, f, Py.max (og D) (fg D)) in A4, L
  end.
  match type of A4 with adds _ _ _ (fst ?x) => destruct x as [rs [[[t f'] g']|e']] end;
    simpl in *.
  - destruct L as (st' & -> & V). unfold values_of in V. injection V as Vt Vf Vg.
    rewrite Vf, Vg.
    destruct (execute_curl_command_spec (ip D) (color D) f' g' w4) as (w5 & -> & A5).
    destruct (update_log_end D (timestamp st') script_version f' (color D) g' (starttemp D) (og D) w5)
      as (w6 & fin & -> & A6 & F1 & F2).
    eexists; exists fin. split; [reflexivity|]. split; [| split; assumption].
    eapply adds_eq.
    { eapply adds_trans; [eapply adds_trans; [eapply adds_trans; [exact A | exact A4] | exact A5] |].
      eapply adds_trans; [exact A6 | solve_adds]. }
    simpl. rewrite <- !app_assoc, app_nil_r. reflexivity.
  - rewrite L. exists w4, []. repeat split; auto.
    eapply adds_eq; [eapply adds_trans; eauto |].
    simpl. rewrite !app_nil_r. reflexivity.
Qed.
End Footprint.

(** ** The readings of the loop *)

Section Steps.
Variable D : Defaults.
Variable dir : direction.
Variable end_temp : Z.
Variable tcpi final : float.
Variable n : Z.

(** one pass hands over one pair, twice, or nothing *)
Lemma step_shape i t f g :
  fst (step D dir tcpi final n i (t, f, g)) = []
  /\ (exists e, snd (step D dir tcpi final n i (t, f, g)) = Py.Raise e)
  \/ exists t' f',
       adjust dir tcpi t = Py.Ok t' /\ fahrenheit t' = Py.Ok f'
       /\ fst (step D dir tcpi final n i (t, f, g)) = pass (f', g)
       /\ ((exists e, snd (step D dir tcpi final n i (t, f, g)) = Py.Raise e)
           \/ exists c, gravity_change (og D) final n = Py.Ok c
                /\ snd (step D dir tcpi final n i (t, f, g))
                   = Py.Ok (t', f', Py.max final (g - c)%float)).
Proof.
  unfold step.
  destruct (adjust dir tcpi t) as [t'|e] eqn:Ha; [| left; split; [reflexivity | exists e; reflexivity]].
  destruct (fahrenheit t') as [f'|e] eqn:Hf; [| left; split; [reflexivity | exists e; reflexivity]].
  right. exists t', f'. split; [reflexivity|]. split; [exact Hf|]. split.
  - destruct (gravity_change (og D) final n); [destruct (Py.float_of_int (i + 1))|]; reflexivity.
  - destruct (gravity_change (og D) final n) as [c|e]; [| left; exists e; reflexivity].
    destruct (Py.float_of_int (i + 1)) as [x|e]; [right | left; exists e; reflexivity].
    exists c. split; reflexivity.
Qed.

(** the readings of the loop: one pair per pass, at most [fuel] passes;
    pair [k] has the temperature after [k + 1] adjustments and the gravity
    after [k] decrements *)
Lemma steps_shape fuel : forall i t f g,
  exists l,
    fst (steps D dir end_temp tcpi final n fuel i (t, f, g)) = flat_map pass l
    /\ (List.length l <= fuel)%nat
    /\ (forall k v, nth_error l k = Some v ->
          decrements (og D) final n k g = Py.Ok (snd v)
          /\ exists t', adjustments dir tcpi (S k) t = Py.Ok t'
                        /\ fahrenheit t' = Py.Ok (fst v))
    /\ (forall t' f' g',
          snd (steps D dir end_temp tcpi final n fuel i (t, f, g)) = Py.Ok (t', f', g') ->
          decrements (og D) final n (List.length l) g = Py.Ok g'
          /\ adjustments dir tcpi (List.length l) t = Py.Ok t'
          /\ (l = [] /\ f' = f \/ exists l' v, l = l' ++ [v] /\ f' = fst v)).
Proof.
  assert (Nil : forall (fuel : nat) (t : Py.num) (f g : float) (r : Py.result Values),
            (forall t' f' g', r = Py.Ok (t', f', g') -> t' = t /\ f' = f /\ g' = g) ->
            exists l : list (float * float),
              @nil reading = flat_map pass l
              /\ (List.length l <= fuel)%nat
              /\ (forall k v, nth_error l k = Some v ->
                    decrements (og D) final n k g = Py.Ok (snd v)
                    /\ exists t', adjustments dir tcpi (S k) t = Py.Ok t'
                                  /\ fahrenheit t' = Py.Ok (fst v))
              /\ (forall t' f' g', r = Py.Ok (t', f', g') ->
                    decrements (og D) final n (List.length l) g = Py.Ok g'
                    /\ adjustments dir tcpi (List.length l) t = Py.Ok t'
                    /\ (l = [] /\ f' = f \/ exists l' v, l = l' ++ [v] /\ f' = fst v))).
  { intros fuel' t f g r Hr. exists []. split; [reflexivity|]. split; [simpl; lia|]. split.
    - intros [|k] v H; discriminate.
    - intros t' f' g' H. destruct (Hr _ _ _ H) as (-> & -> & ->). simpl. auto. }
  induction fuel as [|fuel IH]; intros i t f g; simpl.
  - apply (Nil 0%nat). intros t' f' g' H. injection H as <- <- <-. auto.
  - destruct (reached dir end_temp t).
    { apply (Nil (S fuel)). intros t' f' g' H. injection H as <- <- <-. auto. }
    destruct (step_shape i t f g) as [(H1 & e & H2) | (t' & f' & Ha & Hf & H1 & H2)].
    + destruct (step D dir tcpi final n i (t, f, g)) as [rs r]; simpl in *. subst.
      apply (Nil (S fuel)). discriminate.
    + destruct (step D dir tcpi final n i (t, f, g)) as [rs r]; simpl in *. subst rs.
      destruct H2 as [(e & ->) | (c & Hc & ->)].
      * exists [(f', g)]. split; [reflexivity|]. split; [simpl; lia|]. split; [| discriminate].
        intros [|[|k]] v H; try discriminate. injection H as <-. simpl.
        split; [reflexivity|]. exists t'. rewrite Ha. simpl. auto.
      * destruct (IH (i + 1) t' f' (Py.max final (g - c)%float)) as (l & L1 & L2 & L3 & L4).
        destruct (steps D dir end_temp tcpi final n fuel (i + 1) (t', f', Py.max final (g - c)%float))
          as [rs' r']; simpl in *. subst rs'.
        exists ((f', g) :: l). split; [reflexivity|]. split; [simpl; lia|]. split.
        -- intros [|k] v H; simpl in H.
           ++ injection H as <-. simpl. split; [reflexivity|]. exists t'. rewrite Ha. simpl. auto.
           ++ destruct (L3 k v H) as (G & t'' & T & F).
              change (decrements (og D) final n (S k) g)
                with (Py.rbind (gravity_change (og D) final n) (fun c =>
                        decrements (og D) final n k (Py.max final (g - c)%float))).
              rewrite Hc. simpl. split; [exact G|].
              exists t''.
              change (adjustments dir tcpi (S (S k)) t)
                with (Py.rbind (adjust dir tcpi t) (adjustments dir tcpi (S k))).
              rewrite Ha. simpl. auto.
        -- intros t'' f'' g'' H. destruct (L4 _ _ _ H) as (G & T & F).
           simpl. rewrite Hc, Ha. simpl. split; [exact G|]. split; [exact T|].
           right. destruct F as [(-> & ->) | (l' & v & -> & ->)].
           ++ exists [], (f', g). split; reflexivity.
           ++ exists ((f', g) :: l'), v. split; reflexivity.
Qed.
End Steps.

(** ** The anatomy of a run *)

Lemma run_spec E args :
  exists fin,
    outcome E args = expected_outcome E args
    /\ readings (history E args) = expected E args ++ fin
    /\ (fin = [] \/ fin = expected_final E args)
    /\ (fault_free E -> fin = expected_final E args)
    /\ randoms (history E args) = []
    /\ (fault_free E -> forallb clean (history E args) = true).
Proof.
  unfold outcome, history, run.
  destruct (main_spec E args w0) as (w' & fin & -> & (evs & T & R & N & C) & F1 & F2).
  simpl in *. exists fin. rewrite T, R, N. auto 10.
Qed.

Lemma run_anatomy E args : anatomy E args.
Proof.
  destruct (unreadable E args) eqn:U.
  { apply (Stillborn E args Py.OSError); unfold expected_outcome, expected, expected_final, expected_outcome;
      rewrite U; reflexivity. }
  destruct (plan (resolved E args)) as [p|e] eqn:P.
  2:{ apply (Stillborn E args e); unfold expected_outcome, expected, expected_final, expected_outcome;
        rewrite U, ?P; reflexivity. }
  destruct (log_opens E) eqn:O.
  2:{ apply (Stillborn E args Py.OSError); unfold expected_outcome, expected, expected_final, expected_outcome;
        rewrite U, ?P, ?O; reflexivity. }
  set (D := resolved E args) in *.
  destruct (steps_shape D
              (determine_direction (Py.Int (p_start_temp p)) (Py.Int (p_end_temp p)))
              (p_end_temp p) (p_change p) (Py.min (og D) (fg D)) (time D * 60)
              (Z.to_nat (time D * 60)) 0
              (Py.Int (p_start_temp p)) (p_fahrenheit p) (Py.max (og D) (fg D)))
    as (l & L1 & L2 & L3 & L4).
  fold (planned_loop D p) in L1, L4.
  assert (L3' : forall k v, nth_error l k = Some v ->
            gravity_after D k = Py.Ok (snd v) /\ temperature_after D (S k) = Py.Ok (fst v)).
  { intros k v H. destruct (L3 k v H) as (G & t' & T & F). split; [exact G|].
    unfold temperature_after. rewrite P. unfold Py.rbind. fold D. rewrite T. exact F. }
  destruct (snd (planned_loop D p)) as [[[t f] g]|e] eqn:S.
  - destruct (L4 t f g eq_refl) as (G & T & F).
    apply (Whole E args p l f g); fold D; auto;
      unfold expected_outcome, expected, expected_final, expected_outcome; fold D;
      rewrite U, ?P, ?O, ?S, ?L1; reflexivity.
  - apply (Broken E args e p l); fold D; auto;
      unfold expected_outcome, expected, expected_final, expected_outcome; fold D;
      rewrite U, ?P, ?O, ?S, ?L1, ?app_nil_r; reflexivity.
Qed.

(** ** Projections of the readings *)

Lemma ticks_of_passes l : values (filter is_tick (flat_map pass l)) = l.
Proof. induction l as [|[f g] l IH]; simpl; [reflexivity | now rewrite IH]. Qed.

Lemma https_of_passes l : values (filter is_http (flat_map pass l)) = l.
Proof. induction l as [|[f g] l IH]; simpl; [reflexivity | now rewrite IH]. Qed.

Lemma finals_of_passes l : filter is_final (flat_map pass l) = [].
Proof. induction l as [|[f g] l IH]; simpl; [reflexivity | now rewrite IH]. Qed.

Lemma values_app a b : values (a ++ b) = values a ++ values b.
Proof. apply map_app. Qed.

(** the complete line adds neither a per-tick line nor a notification *)
Lemma fin_no_tick E args fin :
  fin = [] \/ fin = expected_final E args ->
  filter is_tick fin = [] /\ filter is_http fin = [].
Proof.
  intros [-> | ->]; [split; reflexivity|].
  unfold expected_final.
  destruct (expected_outcome E args); [| split; reflexivity].
  destruct (plan (resolved E args)) as [p|]; [| split; reflexivity].
  destruct (snd (planned_loop (resolved E args) p)) as [[[t f] g]|]; split; reflexivity.
Qed.

(** the per-tick lines and the notifications of a run *)
Lemma run_ticks E args :
  exists l : list (float * float),
    tick_lines (history E args) = l
    /\ (List.length l <= Z.to_nat (time (resolved E args) * 60))%nat
    /\ (forall k v, nth_error l k = Some v ->
          gravity_after (resolved E args) k = Py.Ok (snd v)
          /\ temperature_after (resolved E args) (S k) = Py.Ok (fst v))
    /\ (notifications (history E args) = l /\ (exists e, outcome E args = Py.Raise e)
        \/ exists f g, notifications (history E args) = l ++ [(f, g)]
             /\ outcome E args = Py.Ok tt
             /\ gravity_after (resolved E args) (List.length l) = Py.Ok g).
Proof.
  destruct (run_spec E args) as (fin & O & R & F1 & _ & _ & _).
  destruct (fin_no_tick E args fin F1) as (Ft & Fh).
  unfold tick_lines, notifications. rewrite R, O, !filter_app, Ft, Fh, !app_nil_r.
  destruct (run_anatomy E args) as [e Ho He Hf | e p l Ho Hp He Hf Hl Hk | p l f g Ho Hp He Hf Hl Hk Hg Hlast];
    rewrite He, Ho.
  - exists []. simpl. split; [reflexivity|]. split; [lia|]. split.
    + intros [|k] v H; discriminate.
    + left. eauto.
  - exists l. simpl. rewrite ticks_of_passes, https_of_passes.
    split; [reflexivity|]. split; [exact Hl|]. split; [exact Hk|]. left. eauto.
  - exists l. simpl. rewrite !filter_app, !values_app, ticks_of_passes, https_of_passes. simpl.
    rewrite app_nil_r.
    split; [reflexivity|]. split; [exact Hl|]. split; [exact Hk|]. right. eauto.
Qed.

(** C7. For a duration of d >= 0 minutes the device is notified at most
    d*60 + 1 times and the log gets at most d*60 per-tick lines, one of each
    per pass of the loop; a run that ends well makes exactly one
    notification more than it writes per-tick lines, the summary sent after
    the loop, whether the loop ran to its count or left early; and no run
    writes a second complete line. *)
Theorem ticks_bounded_by_duration (E : Env) (args : Args) :
  0 <= time (resolved E args) ->
  Z.of_nat (List.length (notifications (history E args))) <= time (resolved E args) * 60 + 1
  /\ Z.of_nat (List.length (tick_lines (history E args))) <= time (resolved E args) * 60
  /\ (outcome E args = Py.Ok tt ->
      exists v, notifications (history E args) = tick_lines (history E args) ++ [v])
  /\ (List.length (filter is_final (readings (history E args))) <= 1)%nat.
Proof.
  intros Hd.
  destruct (run_ticks E args) as (l & -> & Hl & _ & Hn).
  assert (Hz : Z.of_nat (List.length l) <= time (resolved E args) * 60).
  { apply Nat2Z.inj_le in Hl. rewrite Z2Nat.id in Hl by lia. exact Hl. }
  split; [| split; [exact Hz | split]].
  - destruct Hn as [(-> & _) | (f & g & -> & _)]; [lia|].
    rewrite length_app. change (List.length [(f, g)]) with 1%nat. lia.
  - intros Ho. destruct Hn as [(_ & e & He) | (f & g & -> & _)].
    + rewrite He in Ho. discriminate.
    + eauto.
  - destruct (run_spec E args) as (fin & _ & R & F1 & _).
    rewrite R, filter_app.
    assert (Hexp : filter is_final (expected E args) = []).
    { destruct (run_anatomy E args) as [e Ho He Hf | e p l' Ho Hp He Hf Hl' Hk | p l' f g Ho Hp He Hf Hl' Hk Hg Hlast];
        rewrite He; simpl; rewrite ?filter_app, ?finals_of_passes; reflexivity. }
    rewrite Hexp. simpl.
    destruct F1 as [-> | ->]; [simpl; lia|].
    destruct (run_anatomy E args) as [e Ho He Hf | e p l' Ho Hp He Hf Hl' Hk | p l' f g Ho Hp He Hf Hl' Hk Hg Hlast];
      rewrite Hf; simpl; lia.
Qed.

(** The witness of [ticks_bounded_by_duration]: the example run. *)
Lemma ticks_bounded_by_duration_witness :
  0 <= time (resolved calm one_minute)
  /\ Z.of_nat (List.length (notifications (history calm one_minute))) <= 61.
Proof.
  split; [vm_compute; discriminate|].
  apply (ticks_bounded_by_duration calm one_minute). vm_compute; discriminate.
Defined.

(** C4 (as amended). On every tick the temperature is advanced before the
    log entry and the notification are made, and both carry it; the gravity
    is advanced after them: the [k]-th tick, counted from 1, shows the
    temperature after [k] adjustments and the gravity after [k - 1]
    decrements, the first tick the start gravity.  The notifications, the
    summary sent after the loop included, show the gravity after 0, 1, 2,
    ... decrements. *)
Theorem tick_shows_gravity_before_decrement (E : Env) (args : Args) :
  (forall k v,
     nth_error (tick_lines (history E args)) k = Some v ->
     nth_error (notifications (history E args)) k = Some v
     /\ temperature_after (resolved E args) (S k) = Py.Ok (fst v)
     /\ gravity_after (resolved E args) k = Py.Ok (snd v))
  /\ (forall k v,
        nth_error (notifications (history E args)) k = Some v ->
        gravity_after (resolved E args) k = Py.Ok (snd v)).
Proof.
  destruct (run_ticks E args) as (l & -> & Hl & Hk & Hn).
  split.
  - intros k v H. destruct (Hk k v H) as (G & T).
    split; [| split; assumption].
    destruct Hn as [(-> & _) | (f & g & -> & _)]; [exact H|].
    rewrite nth_error_app1; [exact H|]. apply nth_error_Some. congruence.
  - intros k v H.
    destruct Hn as [(Hn & _) | (f & g & Hn & _ & G)]; rewrite Hn in H.
    + apply (Hk k v H).
    + destruct (Nat.lt_ge_cases k (List.length l)) as [Lt | Ge].
      * rewrite nth_error_app1 in H by exact Lt. apply (Hk k v H).
      * rewrite nth_error_app2 in H by exact Ge.
        destruct (k - List.length l)%nat as [|j] eqn:J.
        -- injection H as <-. replace k with (List.length l) by lia. exact G.
        -- destruct j; discriminate.
Qed.

Lemma tick_shows_gravity_before_decrement_witness :
  nth_error (tick_lines (history calm one_minute)) 0 = Some first_tick
  /\ gravity_after (resolved calm one_minute) 0 = Py.Ok (snd first_tick).
Proof.
  assert (H : nth_error (tick_lines (history calm one_minute)) 0 = Some first_tick)
    by (vm_compute; reflexivity).
  split; [exact H|].
  apply (proj1 (tick_shows_gravity_before_decrement calm one_minute) 0%nat first_tick H).
Defined.

(** C4 (as stated) fails on the example run: its first tick shows the start
    gravity, not the gravity after the first decrement. *)
Lemma first_tick_shows_start_gravity :
  ~ (forall k v,
       nth_error (tick_lines (history calm one_minute)) k = Some v ->
       gravity_after (resolved calm one_minute) (S k) = Py.Ok (snd v)).
Proof.
  intros H.
  specialize (H 0%nat first_tick ltac:(vm_compute; reflexivity)).
  assert (B : match gravity_after (resolved calm one_minute) 1 with
              | Py.Ok g => (g <? snd first_tick)%float
              | Py.Raise _ => false
              end = true) by (vm_compute; reflexivity).
  rewrite H in B. vm_compute in B. discriminate.
Qed.

(** ** The log file *)












(** ** Failures and chance *)

(** what a run hands to the sinks but for the complete line *)
Lemma run_values E args :
  outcome E args = expected_outcome E args
  /\ tick_lines (history E args) = values (filter is_tick (expected E args))
  /\ notifications (history E args) = values (filter is_http (expected E args))
  /\ randoms (history E args) = [].
Proof.
  destruct (run_spec E args) as (fin & O & R & F1 & _ & N & _).
  destruct (fin_no_tick E args fin F1) as (Ft & Fh).
  unfold tick_lines, notifications.
  rewrite R, !filter_app, Ft, Fh, !app_nil_r. auto.
Qed.

(** C10. The values of a run are a function of its parameters: whatever
    the calls that fail, the timestamps, the clock and the random draws
    are, the run ends the same way and hands the same pairs of a
    temperature and a gravity, in the same order, to the per-tick lines of
    the log and to the device; where no call fails, every reading of the
    run is the same; and no run ever draws a random number. *)
Theorem values_are_deterministic (E : Env) (args : Args)
    (f f' : nat -> bool) (n n' : nat -> Z) (c c' u u' : nat -> float) :
  outcome (reseed E f n c u) args = outcome (reseed E f' n' c' u') args
  /\ tick_lines (history (reseed E f n c u) args)
     = tick_lines (history (reseed E f' n' c' u') args)
  /\ notifications (history (reseed E f n c u) args)
     = notifications (history (reseed E f' n' c' u') args)
  /\ readings (history (reseed E (fun _ => false) n c u) args)
     = readings (history (reseed E (fun _ => false) n' c' u') args)
  /\ randoms (history E args) = [].
Proof.
  destruct (run_values (reseed E f n c u) args) as (O1 & T1 & N1 & _).
  destruct (run_values (reseed E f' n' c' u') args) as (O2 & T2 & N2 & _).
  destruct (run_values E args) as (_ & _ & _ & R).
  rewrite O1, O2, T1, T2, N1, N2.
  repeat (split; [reflexivity|]). split; [| exact R].
  destruct (run_spec (reseed E (fun _ => false) n c u) args) as (fin1 & _ & R1 & _ & F1 & _).
  destruct (run_spec (reseed E (fun _ => false) n' c' u') args) as (fin2 & _ & R2 & _ & F2 & _).
  rewrite R1, R2, F1, F2 by (intros k; reflexivity). reflexivity.
Qed.

(** ** Swallowed failures *)

Lemma update_log_swallows E D ts v f c g s o is_start is_end w :
  fst (update_log E D ts v f c g s o is_start is_end w) = Py.Ok tt
  /\ exists evs,
       trace (snd (update_log E D ts v f c g s o is_start is_end w)) = trace w ++ evs
       /\ (forallb clean evs = false -> In (EPrint MsgLogError) evs).
Proof.
  unfold update_log, file_write, file_flush, try_except, bind, ret, raise, lift, emit, ask.
  destruct is_start, is_end; simpl;
    repeat match goal with
           | |- context [fails E ?k] => destruct (fails E k); simpl
           end;
    (split; [reflexivity|]); eexists;
    (split; [rewrite <- ?app_assoc; simpl; reflexivity|]); simpl; intros H;
    first [discriminate | tauto].
Qed.

Lemma execute_curl_command_swallows E a c f g w :
  fst (execute_curl_command E a c f g w) = Py.Ok tt
  /\ exists evs,
       trace (snd (execute_curl_command E a c f g w)) = trace w ++ evs
       /\ (forallb clean evs = false -> In (EPrint MsgCurlError) evs).
Proof.
  unfold execute_curl_command, subprocess_run, try_except, bind, ret, raise, lift, emit, ask.
  simpl. destruct (fails E (asked w)); simpl;
    (split; [reflexivity|]); eexists;
    (split; [rewrite <- ?app_assoc; simpl; reflexivity|]); simpl; intros H;
    first [discriminate | tauto].
Qed.



(** ** The example runs *)

(** C1. With OG = 1.015 below FG = 1.0615 the gravity starts at the higher
    value, 1.0615, but the decrement of the loop is computed from
    [DEFAULTS['og']], not from the start gravity: it is
    (1.015 - 1.015) / 60 = 0 where the higher minus the lower over the
    steps is 0.000775, and all 61 notifications of the run show 1.0615. *)
Theorem decrement_ignores_higher_fg :
  let D := resolved calm swapped_gravities in
  Py.max (og D) (fg D) = 1.0615%float
  /\ Py.min (og D) (fg D) = 1.015%float
  /\ gravity_change (og D) (Py.min (og D) (fg D)) (time D * 60) = Py.Ok 0%float
  /\ Py.truediv (Py.Flt (Py.max (og D) (fg D) - Py.min (og D) (fg D))) (Py.Int (time D * 60))
     = Py.Ok 0.00077500000000000344%float
  /\ map snd (notifications (history calm swapped_gravities)) = repeat 1.0615%float 61.
Proof. vm_compute. repeat split; reflexivity. Qed.

(** C2. Cooling from 60 °F to 50.0502 °F in one minute: the target is cut
    down to 10027 whole milli-degrees Celsius by [int], nothing clamps the
    temperature, and the last tick and the summary show 50.0486 °F, printed
    50.0, below the end temperature 50.0502 °F, printed 50.1. *)
Theorem cooling_passes_the_end_temperature :
  let h := history calm cooling in
  outcome calm cooling = Py.Ok tt
  /\ milli_celsius 60 = Py.Ok 15555
  /\ milli_celsius 50.0502 = Py.Ok 10027
  /\ determine_direction (Py.Int 15555) (Py.Int 10027) = down
  /\ List.length (tick_lines h) = 60%nat
  /\ (fst (last (tick_lines h) (0, 0)%float) <? 50.0502)%float = true
  /\ Py.format_f 1 (fst (last (tick_lines h) (0, 0)%float)) = Py.Fixed false 500
  /\ Py.format_f 1 (fst (last (notifications h) (0, 0)%float)) = Py.Fixed false 500
  /\ Py.format_f 1 50.0502 = Py.Fixed false 501.
Proof. vm_compute. repeat split; reflexivity. Qed.

(** C3. A duration of zero minutes makes [number_of_changes] zero and the
    division that computes [temp_change_per_interval] fail: every such run
    ends in an uncaught exception, with nothing written to the log and
    nothing sent to the device. *)
Theorem zero_duration_raises (E : Env) (args : Args) :
  time (resolved E args) = 0 ->
  (exists e, outcome E args = Py.Raise e)
  /\ readings (history E args) = [].
Proof.
  intros Hz.
  destruct (run_spec E args) as (fin & O & R & F1 & _).
  assert (P : exists e, plan (resolved E args) = Py.Raise e).
  { unfold plan. rewrite Hz.
    destruct (milli_celsius (starttemp (resolved E args))) as [s|e];
      [| exists e; reflexivity].
    destruct (milli_celsius (finaltemp (resolved E args))) as [e|e'];
      [| exists e'; reflexivity].
    exists Py.ZeroDivisionError. reflexivity. }
  destruct P as (e & P).
  assert (X : (exists e', expected_outcome E args = Py.Raise e')
              /\ expected E args = [] /\ expected_final E args = []).
  { unfold expected_final, expected_outcome, expected.
    destruct (unreadable E args); rewrite ?P; repeat split; eauto. }
  destruct X as ((e' & Xo) & Xe & Xf).
  rewrite O, R, Xe. split; [eauto|].
  destruct F1 as [-> | ->]; [reflexivity | exact Xf].
Qed.

Lemma zero_duration_raises_witness :
  time (resolved calm zero_minutes) = 0
  /\ readings (history calm zero_minutes) = [].
Proof.
  assert (H : time (resolved calm zero_minutes) = 0) by reflexivity.
  split; [exact H|].
  apply (zero_duration_raises calm zero_minutes H).
Defined.

(** the exception of the example with zero minutes *)
Lemma zero_minutes_divides_by_zero :
  run calm zero_minutes = (Py.Raise Py.ZeroDivisionError, []).
Proof. vm_compute. reflexivity. Qed.


(** ** The gravity of the loop *)

Lemma float_of_int_nonneg (n : Z) (f : float) :
  0 <= n -> Py.float_of_int n = Py.Ok f -> nonneg (Prim2SF f).
Proof.
  intros Hn. unfold Py.float_of_int.
  destruct (is_infinity _); [discriminate|]. intros H. injection H as <-.
  apply SF2Prim_nonneg, binary_normalize_nonneg, Hn.
Qed.

Lemma min_le_max (a b : float) :
  is_nan a = false -> (Py.min a b <=? Py.max a b)%float = true.
Proof.
  intros Ha. unfold Py.min, Py.max.
  destruct (a <? b)%float eqn:L1, (b <? a)%float eqn:L2.
  - apply (leb_refl_r a b), ltb_leb, L1.
  - apply ltb_leb, L1.
  - apply ltb_leb, L2.
  - apply leb_refl, Ha.
Qed.

Lemma gravity_change_nonneg (a b : float) (n : Z) (c : float) :
  0 <= n -> gravity_change a (Py.min a b) n = Py.Ok c -> nonneg (Prim2SF c).
Proof.
  intros Hn. unfold gravity_change, Py.truediv, Py.to_float, Py.rbind.
  destruct (Py.float_of_int n) as [nf|] eqn:F; [| discriminate].
  unfold Py.float_truediv. destruct (nf =? 0)%float eqn:Z0; [discriminate|].
  intros H. injection H as <-.
  apply div_nonneg; [| apply (float_of_int_nonneg n nf Hn F) | exact Z0].
  unfold Py.min. destruct (b <? a)%float eqn:L; [apply sub_lt_nonneg, L | apply sub_self_nonneg].
Qed.

(** one decrement: the gravity does not grow and stays at or above the
    final gravity *)
Lemma decrement_bounds (final g c : float) :
  (final <=? g)%float = true -> nonneg (Prim2SF c) ->
  (final <=? Py.max final (g - c))%float = true
  /\ (Py.max final (g - c) <=? g)%float = true.
Proof.
  intros Hf Nc. unfold Py.max.
  destruct (final <? g - c)%float eqn:L.
  - split; [apply ltb_leb, L|].
    destruct (sub_nonneg_leb g c Nc) as [N | H]; [| exact H].
    rewrite FloatAxioms.ltb_spec, N in L. unfold SFltb in L.
    destruct (Prim2SF final); discriminate.
  - split; [apply (leb_refl_l final g Hf) | exact Hf].
Qed.

Section Decrements.
Variables (a final : float) (n : Z).

Lemma decrements_last (k : nat) : forall g,
  decrements a final n (S k) g
  = Py.rbind (decrements a final n k g) (fun x =>
    Py.rbind (gravity_change a final n) (fun c => Py.Ok (Py.max final (x - c)%float))).
Proof.
  induction k as [|k IH]; intros g.
  - simpl. destruct (gravity_change a final n); reflexivity.
  - change (decrements a final n (S (S k)) g)
      with (Py.rbind (gravity_change a final n) (fun c =>
              decrements a final n (S k) (Py.max final (g - c)%float))).
    change (decrements a final n (S k) g)
      with (Py.rbind (gravity_change a final n) (fun c =>
              decrements a final n k (Py.max final (g - c)%float))).
    destruct (gravity_change a final n) as [c|e] eqn:C; [| reflexivity].
    cbn [Py.rbind]. rewrite IH. reflexivity.
Qed.

Hypothesis change_nonneg : forall c, gravity_change a final n = Py.Ok c -> nonneg (Prim2SF c).

Lemma decrements_above (k : nat) : forall g x,
  (final <=? g)%float = true -> decrements a final n k g = Py.Ok x ->
  (final <=? x)%float = true.
Proof.
  induction k as [|k IH]; intros g x Hg; simpl.
  - intros H. injection H as <-. exact Hg.
  - destruct (gravity_change a final n) as [c|e] eqn:C; [| discriminate]. simpl.
    apply IH. apply decrement_bounds; [exact Hg | apply change_nonneg; reflexivity].
Qed.

Lemma decrements_step (k : nat) (g x y : float) :
  (final <=? g)%float = true ->
  decrements a final n k g = Py.Ok x ->
  decrements a final n (S k) g = Py.Ok y ->
  (y <=? x)%float = true.
Proof.
  intros Hg Hx. rewrite decrements_last, Hx. simpl.
  pose proof (decrements_above k g x Hg Hx) as Hfx.
  destruct (gravity_change a final n) as [c|e] eqn:C; [| discriminate]. simpl.
  intros H. injection H as <-.
  apply decrement_bounds; [exact Hfx | apply change_nonneg; reflexivity].
Qed.
End Decrements.

Lemma gravities_app a b : gravities (a ++ b) = gravities a ++ gravities b.
Proof. unfold gravities. now rewrite readings_app, filter_app, map_app. Qed.

Lemma gravities_of_passes l :
  map r_gravity (filter (fun r => negb (is_recap r)) (flat_map pass l))
  = flat_map (fun v : float * float => [snd v; snd v]) l.
Proof. induction l as [|v l IH]; simpl; [reflexivity | now rewrite IH]. Qed.

(** once the final gravity is not a number, neither is the gravity *)
Lemma decrements_nan (a final : float) (n : Z) (k : nat) : forall g x,
  is_nan final = true -> is_nan g = true ->
  decrements a final n k g = Py.Ok x -> is_nan x = true.
Proof.
  induction k as [|k IH]; intros g x Hf Hg; simpl.
  - intros H. injection H as <-. exact Hg.
  - destruct (gravity_change a final n) as [c|e]; [| discriminate]. simpl.
    apply IH; [exact Hf|]. unfold Py.max. rewrite (ltb_nan_l final _ Hf). exact Hf.
Qed.

Lemma gravity_after_nan (D : Defaults) (j : nat) (x : float) :
  is_nan (og D) = true -> gravity_after D j = Py.Ok x -> is_nan x = true.
Proof.
  intros H. unfold gravity_after, Py.max, Py.min.
  rewrite (ltb_nan_l (og D) (fg D) H), (ltb_nan_r (fg D) (og D) H).
  apply decrements_nan; exact H.
Qed.

Lemma Sorted_weaken {A} (R R' : A -> A -> Prop) (l : list A) :
  (forall a b, R a b -> R' a b) -> Sorted R l -> Sorted R' l.
Proof.
  intros Himp. induction 1 as [|a l Hs IH Hd]; constructor; [exact IH|].
  destruct Hd; constructor; auto.
Qed.

Lemma Sorted_of_Forall {A} (P : A -> Prop) (R : A -> A -> Prop) (l : list A) :
  (forall a b, P a -> R a b) -> Forall P l -> Sorted R l.
Proof.
  intros Himp. induction 1 as [|a l Ha Hl IH]; constructor; [exact IH|].
  destruct l; constructor. apply Himp, Ha.
Qed.

Section Staircase.
Variable D : Defaults.
Hypothesis descends : forall j x y,
  gravity_after D j = Py.Ok x -> gravity_after D (S j) = Py.Ok y -> not_above x y.
Hypothesis settled : forall j x, gravity_after D j = Py.Ok x -> not_above x x.

(** the gravities of the passes, each shown twice, then the gravity the
    loop leaves, shown once or twice, never rise *)
Lemma staircase (l : list (float * float)) : forall (k : nat) (p : float) (t : list float),
  (forall j v, nth_error l j = Some v -> gravity_after D (k + j) = Py.Ok (snd v)) ->
  (exists j, gravity_after D j = Py.Ok p /\ (j = k \/ S j = k)) ->
  (t = [] \/ exists g, gravity_after D (k + List.length l) = Py.Ok g /\ (t = [g] \/ t = [g; g])) ->
  Sorted not_above (p :: flat_map (fun v : float * float => [snd v; snd v]) l ++ t).
Proof.
  assert (Hp : forall k p x, (exists j, gravity_after D j = Py.Ok p /\ (j = k \/ S j = k)) ->
                 gravity_after D k = Py.Ok x -> not_above p x).
  { intros k p x (j & Hj & [E | E]) Hx; subst k.
    - rewrite Hj in Hx. injection Hx as <-. apply (settled j p Hj).
    - apply (descends j p x Hj Hx). }
  induction l as [|v l IH]; intros k p t Hl Hprev Ht; simpl.
  - rewrite Nat.add_0_r in Ht.
    destruct Ht as [-> | (g & Hg & [-> | ->])].
    + repeat constructor.
    + repeat constructor. apply (Hp k p g Hprev Hg).
    + repeat constructor; [apply (settled k g Hg) | apply (Hp k p g Hprev Hg)].
  - assert (Hv : gravity_after D k = Py.Ok (snd v)).
    { specialize (Hl 0%nat v eq_refl). rewrite Nat.add_0_r in Hl. exact Hl. }
    constructor; [| constructor; apply (Hp k p _ Hprev Hv)].
    constructor; [| constructor; apply (settled k _ Hv)].
    apply (IH (S k)).
    + intros j w Hw. specialize (Hl (S j) w Hw).
      replace (S k + j)%nat with (k + S j)%nat by lia. exact Hl.
    + exists k. split; [exact Hv | now right].
    + destruct Ht as [-> | (g & Hg & Ht)]; [now left | right].
      exists g. split; [| exact Ht].
      replace (S k + List.length l)%nat with (k + List.length (v :: l))%nat by (simpl; lia).
      exact Hg.
Qed.

Lemma staircase_members (l : list (float * float)) (k : nat) (t : list float) :
  (forall j v, nth_error l j = Some v -> gravity_after D (k + j) = Py.Ok (snd v)) ->
  (t = [] \/ exists g, gravity_after D (k + List.length l) = Py.Ok g /\ (t = [g] \/ t = [g; g])) ->
  Forall (fun g => exists j, gravity_after D j = Py.Ok g)
    (flat_map (fun v : float * float => [snd v; snd v]) l ++ t).
Proof.
  intros Hl Ht. apply Forall_app. split.
  - apply Forall_flat_map. apply Forall_forall. intros v Hin.
    destruct (In_nth_error _ _ Hin) as (j & Hj).
    repeat constructor; exists (k + j)%nat; apply (Hl j v Hj).
  - destruct Ht as [-> | (g & Hg & [-> | ->])]; repeat constructor; eauto.
Qed.
End Staircase.

Lemma gravities_of_readings tr :
  gravities tr = map r_gravity (filter (fun r => negb (is_recap r)) (readings tr)).
Proof. reflexivity. Qed.

(** the gravities a run shows, by its anatomy *)
Lemma run_gravities E args :
  let D := resolved E args in
  gravities (history E args) = [] /\ (exists e, outcome E args = Py.Raise e)
  \/ exists (l : list (float * float)) (t : list float),
       gravities (history E args)
       = Py.max (og D) (fg D) :: flat_map (fun v : float * float => [snd v; snd v]) l ++ t
       /\ (List.length l <= Z.to_nat (time D * 60))%nat
       /\ (forall j v, nth_error l j = Some v -> gravity_after D (0 + j) = Py.Ok (snd v))
       /\ (t = [] \/ exists g, gravity_after D (0 + List.length l) = Py.Ok g
                               /\ (t = [g] \/ t = [g; g])).
Proof.
  intros D. subst D. rewrite gravities_of_readings.
  destruct (run_spec E args) as (fin & O & R & F1 & _).
  rewrite R, O.
  destruct (run_anatomy E args) as [e Ho He Hf | e p l Ho Hp He Hf Hl Hk | p l f g Ho Hp He Hf Hl Hk Hg Hlast];
    rewrite He; rewrite Hf in F1.
  - left. split; [destruct F1 as [-> | ->]; reflexivity | eauto].
  - right. exists l, []. split; [| split; [exact Hl | split; [| now left]]].
    + assert (fin = []) as -> by (destruct F1; assumption).
      rewrite app_nil_r. cbn [map filter negb is_recap src r_gravity].
      rewrite gravities_of_passes, app_nil_r. reflexivity.
    + intros j v H. apply (Hk j v H).
  - right. exists l, (g :: map r_gravity fin).
    split; [| split; [exact Hl | split]].
    + cbn [map filter negb is_recap src r_gravity app].
      rewrite !filter_app, !map_app, gravities_of_passes.
      cbn [map filter negb is_recap src r_gravity app].
      rewrite <- app_assoc.
      destruct F1 as [-> | ->]; reflexivity.
    + intros j v H. apply (Hk j v H).
    + right. exists g. split; [exact Hg|].
      destruct F1 as [-> | ->]; cbn [map r_gravity]; auto.
Qed.

(** the gravities of a run whose OG is a number never rise and stay at or
    above the lower of OG and FG *)
Lemma gravities_descend (E : Env) (args : Args) :
  is_nan (og (resolved E args)) = false ->
  Sorted not_above (gravities (history E args))
  /\ Forall (fun g => (Py.min (og (resolved E args)) (fg (resolved E args)) <=? g)%float = true)
       (gravities (history E args)).
Proof.
  intros Hog.
  pose proof (min_le_max _ (fg (resolved E args)) Hog) as H0.
  pose proof (leb_refl_r _ _ H0) as R0.
  destruct (run_gravities E args) as [(G & e & Ho) | (l & t & G & Hl & Hk & Ht)]; rewrite G.
  - split; constructor.
  - destruct (Z.le_gt_cases (time (resolved E args) * 60) 0) as [Neg | Pos].
    + (* no pass of the loop: the start gravity throughout *)
      assert (l = []) as -> by (destruct l; [reflexivity | cbn [List.length] in Hl; lia]).
      assert (Ht' : t = [] \/ t = [Py.max (og (resolved E args)) (fg (resolved E args))]
                    \/ t = [Py.max (og (resolved E args)) (fg (resolved E args));
                            Py.max (og (resolved E args)) (fg (resolved E args))]).
      { destruct Ht as [-> | (g & Hg & Ht)]; [now left | right].
        injection Hg as <-. exact Ht. }
      cbn [flat_map app].
      destruct Ht' as [-> | [-> | ->]]; split; repeat constructor; assumption.
    + assert (CN : forall c, gravity_change (og (resolved E args))
                               (Py.min (og (resolved E args)) (fg (resolved E args)))
                               (time (resolved E args) * 60) = Py.Ok c ->
                     nonneg (Prim2SF c)).
      { intros c. apply gravity_change_nonneg. lia. }
      assert (Above : forall j x, gravity_after (resolved E args) j = Py.Ok x ->
                        (Py.min (og (resolved E args)) (fg (resolved E args)) <=? x)%float = true).
      { intros j x. apply (decrements_above _ _ _ CN). exact H0. }
      split.
      * apply (staircase (resolved E args)) with (k := 0%nat).
        -- intros j x y Hx Hy. apply (decrements_step _ _ _ CN j _ x y H0 Hx Hy).
        -- intros j x Hx. apply (leb_refl_r _ _ (Above j x Hx)).
        -- exact Hk.
        -- exists 0%nat. split; [reflexivity | now left].
        -- exact Ht.
      * constructor; [exact H0|].
        eapply Forall_impl; [| apply (staircase_members (resolved E args) l 0 t Hk Ht)].
        intros g (j & Hj). apply (Above j g Hj).
Qed.

(** the gravities of a run whose OG is not a number are not numbers *)
Lemma gravities_nan (E : Env) (args : Args) :
  is_nan (og (resolved E args)) = true ->
  Forall (fun g => is_nan g = true) (gravities (history E args)).
Proof.
  intros Hog.
  destruct (run_gravities E args) as [(G & e & Ho) | (l & t & G & Hl & Hk & Ht)]; rewrite G.
  - constructor.
  - constructor.
    + apply (gravity_after_nan (resolved E args) 0 _ Hog). reflexivity.
    + eapply Forall_impl; [| apply (staircase_members (resolved E args) l 0 t Hk Ht)].
      intros g (j & Hj). apply (gravity_after_nan _ j g Hog Hj).
Qed.

(** C5. Whatever OG and FG are, the gravities a run shows, in the start
    line, in the per-tick lines, in the notifications and in the complete
    line, start at max(OG, FG), never rise from one to the next, and never
    go below min(OG, FG).  Where OG is a number, each is at most the one
    before it and at least min(OG, FG). *)
Theorem gravity_never_rises (E : Env) (args : Args) :
  (forall g, hd_error (gravities (history E args)) = Some g ->
             g = Py.max (og (resolved E args)) (fg (resolved E args)))
  /\ (outcome E args = Py.Ok tt ->
      hd_error (gravities (history E args))
      = Some (Py.max (og (resolved E args)) (fg (resolved E args))))
  /\ Sorted (fun a b => (a <? b)%float = false) (gravities (history E args))
  /\ Forall (fun g => (g <? Py.min (og (resolved E args)) (fg (resolved E args)))%float = false)
       (gravities (history E args))
  /\ (is_nan (og (resolved E args)) = false ->
      Sorted (fun a b => (b <=? a)%float = true) (gravities (history E args))
      /\ Forall (fun g => (Py.min (og (resolved E args)) (fg (resolved E args)) <=? g)%float = true)
           (gravities (history E args))).
Proof.
  split; [| split; [| split; [| split]]].
  - destruct (run_gravities E args) as [(G & e & Ho) | (l & t & G & _)]; rewrite G.
    + intros g H. discriminate.
    + intros g H. injection H as <-. reflexivity.
  - destruct (run_gravities E args) as [(G & e & Ho) | (l & t & G & _)]; rewrite G.
    + intros Ho'. rewrite Ho in Ho'. discriminate.
    + reflexivity.
  - destruct (is_nan (og (resolved E args))) eqn:Hog.
    + apply (Sorted_of_Forall (fun g => is_nan g = true) _ _
               (fun a b Ha => ltb_nan_l a b Ha) (gravities_nan E args Hog)).
    + apply (Sorted_weaken not_above); [| apply (gravities_descend E args Hog)].
      intros a b. apply leb_not_ltb.
  - destruct (is_nan (og (resolved E args))) eqn:Hog.
    + eapply Forall_impl; [| apply (gravities_nan E args Hog)].
      intros g Hg. apply ltb_nan_l, Hg.
    + eapply Forall_impl; [| apply (proj2 (gravities_descend E args Hog))].
      intros g. apply leb_not_ltb.
  - intros Hog. apply (gravities_descend E args Hog).
Qed.

Lemma gravity_never_rises_witness :
  is_nan (og (resolved calm one_minute)) = false
  /\ Sorted (fun a b => (b <=? a)%float = true) (gravities (history calm one_minute)).
Proof.
  assert (H : is_nan (og (resolved calm one_minute)) = false) by reflexivity.
  split; [exact H|].
  apply (proj2 (proj2 (proj2 (proj2 (gravity_never_rises calm one_minute)))) H).
Defined.

(** * Further properties of the program *)

(** ** The parameters and the configuration file *)

Lemma update_empty (D : Defaults) (o : Overrides) : is_empty o = true -> update D o = D.
Proof.
  destruct D, o as [[?|] [?|] [?|] [?|] [?|] [?|] [?|]]; try discriminate. reflexivity.
Qed.

Lemma main_after_resolve (E : Env) (a b : Args) (w : World) :
  resolve E a w = resolve E b w -> main E a w = main E b w.
Proof. intros H. unfold main, bind. rewrite H. reflexivity. Qed.

(** A flag of the command line overrides the value of the configuration
    file, which overrides the built-in default, key by key: that is what
    [resolve] returns on a file that loads, and it prints nothing and asks
    the outside world nothing else.  The test [if config_data:] changes
    nothing: an empty mapping updates nothing. *)
Theorem flags_override_config (E : Env) (path : string) (o flags : Overrides) (w : World) :
  path <> ""%string -> files E path = Loaded o ->
  resolve E (mkArgs (Some path) flags) w
  = (Py.Ok {| ip := pick (o_ip flags) (pick (o_ip o) (ip DEFAULTS));
              color := pick (o_color flags) (pick (o_color o) (color DEFAULTS));
              starttemp := pick (o_starttemp flags) (pick (o_starttemp o) (starttemp DEFAULTS));
              finaltemp := pick (o_finaltemp flags) (pick (o_finaltemp o) (finaltemp DEFAULTS));
              time := pick (o_time flags) (pick (o_time o) (time DEFAULTS));
              og := pick (o_og flags) (pick (o_og o) (og DEFAULTS));
              fg := pick (o_fg flags) (pick (o_fg o) (fg DEFAULTS)) |}, w).
Proof.
  intros Hp Hf.
  unfold resolve, read_config_file, bind, ret. cbn [a_config a_flags].
  destruct (String.length path =? 0)%nat eqn:L.
  - destruct path; [contradiction | discriminate].
  - rewrite Hf. destruct (is_empty o) eqn:Q; [rewrite <- (update_empty DEFAULTS o Q) at 1 |];
      reflexivity.
Qed.

Lemma flags_override_config_witness :
  files configured "simferm.yaml"%string = Loaded five_minutes_at_1050
  /\ resolve configured (mkArgs (Some "simferm.yaml"%string) (a_flags minute_flag)) w0
     = (Py.Ok (mkDefaults (ip DEFAULTS) (color DEFAULTS) (starttemp DEFAULTS)
                 (finaltemp DEFAULTS) 1 1.05%float (fg DEFAULTS)), w0).
Proof.
  assert (Hp : "simferm.yaml"%string <> ""%string) by discriminate.
  assert (H : files configured "simferm.yaml"%string = Loaded five_minutes_at_1050)
    by reflexivity.
  split; [exact H|].
  exact (flags_override_config configured "simferm.yaml"%string five_minutes_at_1050
           (a_flags minute_flag) w0 Hp H).
Defined.

(** A configuration file that does not exist is passed over in silence:
    the whole run, its exit and everything it does, is the run without
    [--config]. *)
Theorem missing_config_is_ignored (E : Env) (path : string) (flags : Overrides) :
  files E path = NotFound ->
  run E (mkArgs (Some path) flags) = run E (mkArgs None flags).
Proof.
  intros H. unfold run. rewrite (main_after_resolve E _ (mkArgs None flags)); [reflexivity|].
  unfold resolve, read_config_file, bind, ret. cbn [a_config a_flags].
  rewrite H. destruct (String.length path =? 0)%nat; reflexivity.
Qed.

Lemma missing_config_is_ignored_witness :
  files calm "simferm.yaml"%string = NotFound
  /\ run calm (mkArgs (Some "simferm.yaml"%string) no_overrides) = run calm (mkArgs None no_overrides).
Proof.
  assert (H : files calm "simferm.yaml"%string = NotFound) by reflexivity.
  split; [exact H|].
  apply (missing_config_is_ignored calm _ _ H).
Defined.

(** a run whose configuration file cannot be opened *)
Lemma run_of_unreadable (E : Env) (args : Args) :
  unreadable E args = true -> run E args = (Py.Raise Py.OSError, []).
Proof.
  intros H. pose proof (resolve_spec E args w0) as R. rewrite H in R.
  unfold run, main, bind. rewrite R. reflexivity.
Qed.

(** Only a missing file and a YAML error are caught: a configuration file
    that cannot be opened for another reason ends the run with the
    exception, before anything is printed, logged or sent. *)
Theorem unreadable_config_aborts (E : Env) (args : Args) :
  unreadable E args = true -> run E args = (Py.Raise Py.OSError, []).
Proof. apply run_of_unreadable. Qed.

Lemma unreadable_config_aborts_witness :
  unreadable locked with_config = true
  /\ run locked with_config = (Py.Raise Py.OSError, []).
Proof.
  assert (H : unreadable locked with_config = true) by reflexivity.
  split; [exact H|].
  apply (unreadable_config_aborts locked with_config H).
Defined.

(** ** No part of the program reads the trace *)

Lemma framed_ret {A} (a : A) : framed (ret a).
Proof. intros t w. reflexivity. Qed.

Lemma framed_raise {A} (e : Py.exn) : framed (@raise A e).
Proof. intros t w. reflexivity. Qed.

Lemma framed_lift {A} (r : Py.result A) : framed (lift r).
Proof. intros t w. reflexivity. Qed.

Lemma framed_emit (e : event) : framed (emit e).
Proof. intros t w. unfold emit, prepend. simpl. rewrite app_assoc. reflexivity. Qed.

Lemma framed_ask {A} (oracle : nat -> A) : framed (ask oracle).
Proof. intros t w. reflexivity. Qed.

Lemma framed_bind {A B} (m : M A) (k : A -> M B) :
  framed m -> (forall a, framed (k a)) -> framed (bind m k).
Proof.
  intros Hm Hk t w. unfold bind. rewrite Hm.
  destruct (m w) as [[a|e] w']; simpl; [apply Hk | reflexivity].
Qed.

Lemma framed_try {A} (m : M A) (h : Py.exn -> M A) :
  framed m -> (forall e, framed (h e)) -> framed (try_except m h).
Proof.
  intros Hm Hh t w. unfold try_except. rewrite Hm.
  destruct (m w) as [[a|e] w']; simpl; [reflexivity | apply Hh].
Qed.

Ltac frame :=
  repeat first
    [ apply framed_ret | apply framed_raise | apply framed_lift
    | apply framed_emit | apply framed_ask
    | apply framed_try; [| intros ?]
    | apply framed_bind; [| intros ?]
    | match goal with
      | |- framed (if ?b then _ else _) => destruct b
      | |- framed (match ?x with _ => _ end) => destruct x
      end ].

Lemma framed_update_log E D ts v f c g s o is_start is_end :
  framed (update_log E D ts v f c g s o is_start is_end).
Proof. unfold update_log, file_write, file_flush. frame. Qed.

Lemma framed_execute_curl_command E a c f g : framed (execute_curl_command E a c f g).
Proof. unfold execute_curl_command, subprocess_run. frame. Qed.

Lemma framed_tick E D dir tcpi final n start_time stf i st :
  framed (tick E D dir tcpi final n start_time stf i st).
Proof.
  unfold tick. frame;
    first [apply framed_update_log | apply framed_execute_curl_command].
Qed.

Lemma framed_loop E D dir end_temp tcpi final n start_time stf fuel :
  forall i st, framed (loop E D dir end_temp tcpi final n start_time stf fuel i st).
Proof.
  induction fuel as [|fuel IH]; intros i st; simpl; [apply framed_ret|].
  destruct (reached dir end_temp (start_temp st)); [apply framed_ret|].
  apply framed_bind; [apply framed_tick | intros st'; apply IH].
Qed.

Lemma framed_main E args : framed (main E args).
Proof.
  unfold main, resolve, read_config_file.
  frame;
    first [apply framed_update_log | apply framed_execute_curl_command | apply framed_loop].
Qed.

Lemma main_on_resolve (E : Env) (a b : Args) (w w' : World) :
  resolve E a w = resolve E b w' -> main E a w = main E b w'.
Proof. intros H. unfold main, bind. rewrite H. reflexivity. Qed.

(** A configuration file that does not parse changes the run by one
    printed message: the run ends as the run without [--config] does and
    does the same things in the same order, after reporting the file. *)
Theorem garbled_config_adds_one_message (E : Env) (path : string) (flags : Overrides) :
  path <> ""%string -> files E path = BadYaml ->
  outcome E (mkArgs (Some path) flags) = outcome E (mkArgs None flags)
  /\ history E (mkArgs (Some path) flags)
     = EPrint (MsgConfigError path) :: history E (mkArgs None flags).
Proof.
  intros Hp H.
  assert (M : main E (mkArgs (Some path) flags) w0
              = main E (mkArgs None flags) (prepend [EPrint (MsgConfigError path)] w0)).
  { apply main_on_resolve.
    unfold resolve, read_config_file, bind, ret, emit. cbn [a_config a_flags].
    destruct (String.length path =? 0)%nat eqn:L.
    - destruct path; [contradiction | discriminate].
    - rewrite H. reflexivity. }
  unfold outcome, history, run. rewrite M, framed_main.
  destruct (main E (mkArgs None flags) w0) as [r w]. split; reflexivity.
Qed.

Lemma garbled_config_adds_one_message_witness :
  files garbled "simferm.yaml"%string = BadYaml
  /\ outcome garbled (mkArgs (Some "simferm.yaml"%string) no_overrides)
     = outcome garbled (mkArgs None no_overrides).
Proof.
  assert (Hp : "simferm.yaml"%string <> ""%string) by discriminate.
  assert (H : files garbled "simferm.yaml"%string = BadYaml) by reflexivity.
  split; [exact H|].
  apply (garbled_config_adds_one_message garbled _ no_overrides Hp H).
Defined.

Arguments milli_celsius : simpl never.
Arguments Py.int_truediv : simpl never.

(** ** Runs that end before the loop *)

Lemma resolve_run (E : Env) (args : Args) :
  unreadable E args = false ->
  resolve E args w0 = (Py.Ok (resolved E args), mkWorld (preamble E args) 0).
Proof.
  unfold unreadable, resolve, resolved, preamble, read_config_file, bind, ret, emit.
  destruct (a_config args) as [path|]; [| reflexivity].
  destruct (String.length path =? 0)%nat; [reflexivity|].
  destruct (files E path); try reflexivity. discriminate.
Qed.

(** a run whose conversions fail ends there *)
Lemma run_without_plan (E : Env) (args : Args) (e : Py.exn) :
  unreadable E args = false -> plan (resolved E args) = Py.Raise e ->
  run E args = (Py.Raise e, preamble E args).
Proof.
  intros U P. unfold run, main. unfold bind at 1. rewrite (resolve_run E args U).
  revert P. generalize (resolved E args). intros D. unfold plan, bind, lift, ask.
  destruct (milli_celsius (starttemp D)) as [s|e1]; simpl;
    [| intros P; injection P as <-; reflexivity].
  destruct (milli_celsius (finaltemp D)) as [t|e1]; simpl;
    [| intros P; injection P as <-; reflexivity].
  destruct (Py.int_truediv (t - s) (time D * 60)) as [c|e1]; simpl;
    [| intros P; injection P as <-; reflexivity].
  destruct (fahrenheit (Py.Int s)) as [f|e1]; simpl;
    [discriminate | intros P; injection P as <-; reflexivity].
Qed.

(** a run whose log cannot be opened prints its first message and ends *)
Lemma run_without_log (E : Env) (args : Args) (p : Plan) :
  unreadable E args = false -> plan (resolved E args) = Py.Ok p -> log_opens E = false ->
  run E args = (Py.Raise Py.OSError, preamble E args ++ [EPrint MsgStarted]).
Proof.
  intros U P L. unfold run, main. unfold bind at 1. rewrite (resolve_run E args U).
  revert P. generalize (resolved E args). intros D. unfold plan, bind, lift, ask, emit, raise.
  destruct (milli_celsius (starttemp D)) as [s|e1]; simpl; [| discriminate].
  destruct (milli_celsius (finaltemp D)) as [t|e1]; simpl; [| discriminate].
  destruct (Py.int_truediv (t - s) (time D * 60)) as [c|e1]; simpl; [| discriminate].
  destruct (fahrenheit (Py.Int s)) as [f|e1]; simpl; [| discriminate].
  intros _. rewrite L. reflexivity.
Qed.

(** When [simferm.log] cannot be opened for writing the run prints that it
    has started and ends with the exception of [open]: nothing is sent to
    the device. *)
Theorem unopened_log_aborts (E : Env) (args : Args) (p : Plan) :
  log_opens E = false ->
  unreadable E args = false -> plan (resolved E args) = Py.Ok p ->
  run E args = (Py.Raise Py.OSError, preamble E args ++ [EPrint MsgStarted])
  /\ readings (history E args) = [].
Proof.
  intros L U P. pose proof (run_without_log E args p U P L) as R.
  split; [exact R|]. unfold history. rewrite R. simpl.
  unfold preamble. destruct (a_config args) as [path|]; [| reflexivity].
  destruct (String.length path =? 0)%nat; [reflexivity|].
  destruct (files E path); reflexivity.
Qed.

Lemma unopened_log_aborts_witness :
  log_opens sealed = false
  /\ run sealed one_minute = (Py.Raise Py.OSError, [EPrint MsgStarted]).
Proof.
  assert (L : log_opens sealed = false) by reflexivity.
  assert (U : unreadable sealed one_minute = false) by reflexivity.
  assert (P : plan (resolved sealed one_minute)
              = Py.Ok (mkPlan 38500 12944 (-425.93333333333334)%float 101.3%float))
    by (vm_compute; reflexivity).
  split; [exact L|].
  exact (proj1 (unopened_log_aborts sealed one_minute _ L U P)).
Defined.

Lemma is_infinity_spec (x : float) :
  is_infinity x = true -> exists s, Prim2SF x = S754_infinity s.
Proof.
  unfold is_infinity. rewrite eqb_spec, abs_spec.
  change (Prim2SF infinity) with (S754_infinity false).
  destruct (Prim2SF x) as [s|s| |s m e]; try discriminate. eauto.
Qed.

(** [int] refuses what is not a number, and an infinity *)
Lemma milli_celsius_nan (f : float) :
  is_nan f = true -> milli_celsius f = Py.Raise Py.ValueError.
Proof.
  intros H. unfold milli_celsius, Py.int_of_float.
  rewrite mul_spec, div_spec, mul_spec, sub_spec, (is_nan_spec f H). reflexivity.
Qed.

Lemma milli_celsius_infinity (f : float) :
  is_infinity f = true -> milli_celsius f = Py.Raise Py.OverflowError.
Proof.
  intros H. destruct (is_infinity_spec f H) as (s & P).
  unfold milli_celsius, Py.int_of_float.
  rewrite mul_spec, div_spec, mul_spec, sub_spec, P. destruct s; reflexivity.
Qed.

(** A start or end temperature that is not a number ends the run with the
    [ValueError] of [int], an infinite one with its [OverflowError], before
    the run prints that it has started: the log is not opened and nothing
    is sent. *)
Theorem unusable_temperature_aborts (E : Env) (args : Args) :
  unreadable E args = false ->
  (is_nan (starttemp (resolved E args)) = true ->
   run E args = (Py.Raise Py.ValueError, preamble E args))
  /\ (is_infinity (starttemp (resolved E args)) = true ->
      run E args = (Py.Raise Py.OverflowError, preamble E args))
  /\ (forall s, milli_celsius (starttemp (resolved E args)) = Py.Ok s ->
      is_nan (finaltemp (resolved E args)) = true ->
      run E args = (Py.Raise Py.ValueError, preamble E args))
  /\ (forall s, milli_celsius (starttemp (resolved E args)) = Py.Ok s ->
      is_infinity (finaltemp (resolved E args)) = true ->
      run E args = (Py.Raise Py.OverflowError, preamble E args)).
Proof.
  intros U. split; [| split; [| split]].
  - intros H. apply (run_without_plan E args _ U).
    unfold plan. rewrite (milli_celsius_nan _ H). reflexivity.
  - intros H. apply (run_without_plan E args _ U).
    unfold plan. rewrite (milli_celsius_infinity _ H). reflexivity.
  - intros s Hs H. apply (run_without_plan E args _ U).
    unfold plan. rewrite Hs, (milli_celsius_nan _ H). reflexivity.
  - intros s Hs H. apply (run_without_plan E args _ U).
    unfold plan. rewrite Hs, (milli_celsius_infinity _ H). reflexivity.
Qed.

Lemma unusable_temperature_aborts_witness :
  unreadable calm no_start = false
  /\ is_nan (starttemp (resolved calm no_start)) = true
  /\ run calm no_start = (Py.Raise Py.ValueError, []).
Proof.
  assert (U : unreadable calm no_start = false) by reflexivity.
  assert (H : is_nan (starttemp (resolved calm no_start)) = true) by reflexivity.
  split; [exact U|]. split; [exact H|].
  exact (proj1 (unusable_temperature_aborts calm no_start U) H).
Defined.

(** ** Runs whose loop makes no pass *)

(** a loop that makes no pass: the summary alone *)
Lemma idle_run (E : Env) (args : Args) (p : Plan) :
  unreadable E args = false -> plan (resolved E args) = Py.Ok p -> log_opens E = true ->
  planned_loop (resolved E args) p
  = ([], Py.Ok (Py.Int (p_start_temp p), p_fahrenheit p,
                Py.max (og (resolved E args)) (fg (resolved E args)))) ->
  outcome E args = Py.Ok tt
  /\ tick_lines (history E args) = []
  /\ notifications (history E args)
     = [(p_fahrenheit p, Py.max (og (resolved E args)) (fg (resolved E args)))].
Proof.
  intros U P L S.
  destruct (run_values E args) as (O & T & N & _).
  rewrite O, T, N. unfold expected_outcome, expected. rewrite U, P, L, S.
  repeat split; reflexivity.
Qed.

(** A negative duration makes [range] empty: the run makes no tick, sends
    the one summary notification with the start temperature and the start
    gravity, and ends well. *)
Theorem negative_duration_makes_no_tick (E : Env) (args : Args) (p : Plan) :
  time (resolved E args) < 0 ->
  unreadable E args = false -> plan (resolved E args) = Py.Ok p -> log_opens E = true ->
  outcome E args = Py.Ok tt
  /\ tick_lines (history E args) = []
  /\ notifications (history E args)
     = [(p_fahrenheit p, Py.max (og (resolved E args)) (fg (resolved E args)))].
Proof.
  intros Hd U P L. apply (idle_run E args p U P L).
  unfold planned_loop.
  replace (Z.to_nat (time (resolved E args) * 60)) with 0%nat by lia. reflexivity.
Qed.

Lemma negative_duration_makes_no_tick_witness :
  time (resolved calm minus_one_minute) < 0
  /\ outcome calm minus_one_minute = Py.Ok tt.
Proof.
  assert (Hd : time (resolved calm minus_one_minute) < 0) by reflexivity.
  assert (U : unreadable calm minus_one_minute = false) by reflexivity.
  assert (P : plan (resolved calm minus_one_minute)
              = Py.Ok (mkPlan 38500 12944 425.93333333333334%float 101.3%float))
    by (vm_compute; reflexivity).
  assert (L : log_opens calm = true) by reflexivity.
  split; [exact Hd|].
  exact (proj1 (negative_duration_makes_no_tick calm minus_one_minute _ Hd U P L)).
Defined.

Lemma reached_at_start (s : Z) :
  reached (determine_direction (Py.Int s) (Py.Int s)) s (Py.Int s) = true.
Proof.
  unfold determine_direction, reached, Py.gt, Py.ge, Py.num_compare.
  rewrite Z.compare_refl. reflexivity.
Qed.

(** When the start and the end temperature are the same number of whole
    milli-degrees Celsius the direction is up and the target counts as
    reached at once: the run makes no tick, sends the one summary
    notification and ends well. *)
Theorem equal_temperatures_make_no_tick (E : Env) (args : Args) (p : Plan) :
  p_start_temp p = p_end_temp p ->
  unreadable E args = false -> plan (resolved E args) = Py.Ok p -> log_opens E = true ->
  outcome E args = Py.Ok tt
  /\ tick_lines (history E args) = []
  /\ notifications (history E args)
     = [(p_fahrenheit p, Py.max (og (resolved E args)) (fg (resolved E args)))].
Proof.
  intros He U P L. apply (idle_run E args p U P L).
  unfold planned_loop. rewrite <- He.
  destruct (Z.to_nat (time (resolved E args) * 60)) as [|fuel]; [reflexivity|].
  cbn [steps fst]. rewrite reached_at_start. reflexivity.
Qed.

Lemma equal_temperatures_make_no_tick_witness :
  plan (resolved calm level) = Py.Ok (mkPlan 21111 21111 0%float 69.9998%float)
  /\ outcome calm level = Py.Ok tt.
Proof.
  assert (U : unreadable calm level = false) by reflexivity.
  assert (P : plan (resolved calm level) = Py.Ok (mkPlan 21111 21111 0%float 69.9998%float))
    by (vm_compute; reflexivity).
  assert (L : log_opens calm = true) by reflexivity.
  split; [exact P|].
  exact (proj1 (equal_temperatures_make_no_tick calm level
                  (mkPlan 21111 21111 0%float 69.9998%float) eq_refl U P L)).
Defined.

(** ** When the loop ends *)

Section Exit.
Variable D : Defaults.
Variable dir : direction.
Variable end_temp : Z.
Variable tcpi final : float.
Variable n : Z.

(** a pass is made only from a temperature short of the target, and the
    loop ends before its count only at one that has reached it *)
Lemma steps_exit (fuel : nat) : forall i t f g,
  (forall k,
     (k < List.length (values (filter is_tick
            (fst (steps D dir end_temp tcpi final n fuel i (t, f, g))))))%nat ->
     exists t', adjustments dir tcpi k t = Py.Ok t' /\ reached dir end_temp t' = false)
  /\ (forall s',
        snd (steps D dir end_temp tcpi final n fuel i (t, f, g)) = Py.Ok s' ->
        (List.length (values (filter is_tick
            (fst (steps D dir end_temp tcpi final n fuel i (t, f, g))))) < fuel)%nat ->
        exists t',
          adjustments dir tcpi
            (List.length (values (filter is_tick
               (fst (steps D dir end_temp tcpi final n fuel i (t, f, g)))))) t = Py.Ok t'
          /\ reached dir end_temp t' = true).
Proof.
  induction fuel as [|fuel IH]; intros i t f g.
  - simpl. split; [intros k Hk; lia | intros s' _ Hl; lia].
  - cbn [steps fst]. destruct (reached dir end_temp t) eqn:R.
    + simpl. split; [intros k Hk; lia|]. intros s' _ _. exists t. split; [reflexivity | exact R].
    + destruct (step_shape D dir tcpi final n i t f g) as [(H1 & e & H2) | (t' & f' & Ha & Hf & H1 & H2)].
      * destruct (step D dir tcpi final n i (t, f, g)) as [rs r]. simpl in H1, H2. subst rs r.
        simpl. split; [intros k Hk; lia | discriminate].
      * destruct (step D dir tcpi final n i (t, f, g)) as [rs r]. simpl in H1, H2. subst rs.
        destruct H2 as [(e & ->) | (c & Hc & ->)].
        -- simpl. split; [| discriminate].
           intros [|k] Hk; [| lia]. exists t. split; [reflexivity | exact R].
        -- destruct (IH (i + 1) t' f' (Py.max final (g - c)%float)) as (I1 & I2).
           destruct (steps D dir end_temp tcpi final n fuel (i + 1)
                       (t', f', Py.max final (g - c)%float)) as [rs' r'].
           cbn [fst snd] in *.
           change (values (filter is_tick (pass (f', g) ++ rs')))
             with ((f', g) :: values (filter is_tick rs')).
           cbn [List.length]. split.
           ++ intros [|k] Hk; [exists t; split; [reflexivity | exact R]|].
              destruct (I1 k ltac:(lia)) as (t'' & A & B).
              exists t''. split; [| exact B].
              cbn [adjustments]. rewrite Ha. exact A.
           ++ intros s' Hs Hl. destruct (I2 s' Hs ltac:(lia)) as (t'' & A & B).
              exists t''. split; [| exact B].
              cbn [adjustments]. rewrite Ha. exact A.
Qed.
End Exit.

(** the per-tick lines of a run are those of its planned loop *)
Lemma run_tick_lines (E : Env) (args : Args) :
  tick_lines (history E args) = [] /\ (exists e, outcome E args = Py.Raise e)
  \/ exists p, unreadable E args = false /\ plan (resolved E args) = Py.Ok p
       /\ log_opens E = true
       /\ tick_lines (history E args)
          = values (filter is_tick (fst (planned_loop (resolved E args) p)))
       /\ (outcome E args = Py.Ok tt ->
           exists s, snd (planned_loop (resolved E args) p) = Py.Ok s).
Proof.
  destruct (run_values E args) as (O & T & _).
  rewrite T, O. unfold expected, expected_outcome.
  destruct (unreadable E args); [left; eauto|].
  destruct (plan (resolved E args)) as [p|e]; [| left; eauto].
  destruct (log_opens E); [| left; eauto].
  right. exists p. repeat split.
  - cbn [filter is_tick src]. rewrite filter_app.
    destruct (snd (planned_loop (resolved E args) p)) as [[[t f] g]|e];
      cbn [filter is_tick src]; rewrite app_nil_r; reflexivity.
  - destruct (snd (planned_loop (resolved E args) p)) as [s|e]; [eauto | discriminate].
Qed.

(** A tick is made only from a temperature that has not reached the
    target: before the tick that comes [k]-th, counted from 0, [start_temp]
    after [k] passes fails the test of the loop.  And a run that ends well
    with fewer ticks than its count of [time * 60] has left the loop
    because the temperature had reached the target. *)
Theorem loop_leaves_at_target (E : Env) (args : Args) :
  (forall k,
     (k < List.length (tick_lines (history E args)))%nat ->
     exists t, milli_after (resolved E args) k = Py.Ok t
               /\ at_target (resolved E args) t = false)
  /\ (outcome E args = Py.Ok tt ->
      (List.length (tick_lines (history E args))
       < Z.to_nat (time (resolved E args) * 60))%nat ->
      exists t, milli_after (resolved E args) (List.length (tick_lines (history E args)))
                = Py.Ok t
                /\ at_target (resolved E args) t = true).
Proof.
  destruct (run_tick_lines E args) as [(-> & e & Ho) | (p & U & P & L & -> & S)].
  - split; [intros k Hk; simpl in Hk; lia|].
    intros Ho'. rewrite Ho in Ho'. discriminate.
  - unfold milli_after, at_target. rewrite P. cbn [Py.rbind]. unfold planned_loop in *.
    split.
    + apply steps_exit.
    + intros Ho. destruct (S Ho) as (s & Hs).
      apply (proj2 (steps_exit _ _ _ _ _ _ _ _ _ _ _) s Hs).
Qed.

Lemma loop_leaves_at_target_witness :
  outcome calm level = Py.Ok tt
  /\ List.length (tick_lines (history calm level)) = 0%nat
  /\ exists t, milli_after (resolved calm level) 0 = Py.Ok t
               /\ at_target (resolved calm level) t = true.
Proof.
  assert (Ho : outcome calm level = Py.Ok tt) by (vm_compute; reflexivity).
  assert (Hn : List.length (tick_lines (history calm level)) = 0%nat)
    by (vm_compute; reflexivity).
  split; [exact Ho|]. split; [exact Hn|].
  rewrite <- Hn.
  apply (proj2 (loop_leaves_at_target calm level) Ho).
  rewrite Hn. vm_compute. lia.
Defined.

(** ** Binary64 arithmetic: results that are numbers *)

Lemma finish_number (s : bool) (m fe : Z) : 0 <= m -> finish s m fe <> S754_nan.
Proof.
  intros Hm. unfold finish, shr_fexp, shr.
  assert (N : forall r e, 0 <= shr_m r ->
            match shr_m r with
            | 0 => S754_zero s
            | Zpos q => if e <=? emax - prec then S754_finite s q e else S754_infinity s
            | Zneg _ => S754_nan
            end <> S754_nan).
  { intros r e Hr. destruct (shr_m r); [discriminate | | lia].
    destruct (e <=? _); discriminate. }
  destruct (fexp prec emax (Zdigits2 m + fe) - fe) as [|p|p]; try (apply N; exact Hm).
  apply N. rewrite iter_shr_m by exact Hm.
  apply Z.div_pos; [exact Hm | apply Z.pow_pos_nonneg; lia].
Qed.

Lemma binary_round_number (s : bool) (M : positive) (e : Z) :
  binary_round prec emax s M e <> S754_nan.
Proof.
  destruct (binary_round_exact s M e) as (m1 & m2 & H1 & H2 & H3 & ->).
  apply finish_number.
  assert (0 <= m1); [| lia].
  destruct (Z.le_ge_cases e (fexp prec emax (Zpos (digits2_pos M) + e))) as [L | L].
  - rewrite (H1 L). apply Z.div_pos; [lia | apply Z.pow_pos_nonneg; lia].
  - rewrite (H2 L). apply Z.mul_nonneg_nonneg; [lia | apply Z.pow_nonneg; lia].
Qed.

Lemma binary_normalize_number (M e : Z) (s : bool) :
  binary_normalize prec emax M e s <> S754_nan.
Proof. destruct M; simpl; [discriminate | apply binary_round_number ..]. Qed.

Lemma SF2Prim_number (x : spec_float) : x <> S754_nan -> Prim2SF (SF2Prim x) <> S754_nan.
Proof.
  destruct x as [[|]|[|]| |s m e]; simpl; try discriminate; [tauto|]. intros _.
  assert (F : Prim2SF (Z.ldexp (of_uint63 (Uint63.of_Z (Zpos m))) e) <> S754_nan).
  { rewrite FloatLemmas.Z_ldexp_spec, of_uint63_spec.
    pose proof (binary_normalize_number
                  (Uint63.to_Z (Uint63.of_Z (Zpos m))) 0 false) as N.
    destruct (binary_normalize prec emax _ 0 false) as [s'|s'| |s' m' e']; simpl;
      try discriminate; [tauto | apply binary_round_number]. }
  destruct s; [| exact F].
  rewrite opp_spec. destruct (Prim2SF (Z.ldexp _ e)) as [s'|s'| |s' m' e'];
    simpl; try discriminate. tauto.
Qed.

(** the float of a positive int that is not zero is a positive number *)
Lemma float_of_int_positive (n : Z) (f : float) :
  0 < n -> Py.float_of_int n = Py.Ok f -> (f =? 0)%float = false ->
  exists m e, Prim2SF f = S754_finite false m e.
Proof.
  intros Hn F Z0.
  pose proof (float_of_int_nonneg n f ltac:(lia) F) as N.
  revert F. unfold Py.float_of_int. cbv zeta.
  destruct (is_infinity _) eqn:I; [discriminate|]. intros F. injection F as <-.
  pose proof (SF2Prim_number _ (binary_normalize_number n 0 false)) as Nn.
  unfold is_infinity in I. rewrite eqb_spec, abs_spec in I.
  rewrite eqb_spec in Z0.
  change (Prim2SF infinity) with (S754_infinity false) in I.
  change (Prim2SF 0) with (S754_zero false) in Z0.
  destruct (Prim2SF (SF2Prim (binary_normalize prec emax n 0 false))) as [s|s| |s m e];
    simpl in *; try discriminate; try tauto.
  subst s. eauto.
Qed.

Lemma is_finite_spec (x : float) :
  is_finite x = true ->
  (exists s, Prim2SF x = S754_zero s) \/ exists s m e, Prim2SF x = S754_finite s m e.
Proof.
  unfold is_finite, is_nan, is_infinity. rewrite negb_true_iff, orb_false_iff, negb_false_iff.
  rewrite !eqb_spec, abs_spec. change (Prim2SF infinity) with (S754_infinity false).
  intros [N I].
  destruct (Prim2SF x) as [s|s| |s m e]; simpl in *; eauto; discriminate.
Qed.

(** a finite number less itself is zero *)
Lemma sub_self_zero (x : float) : is_finite x = true -> Prim2SF (x - x) = S754_zero false.
Proof.
  intros H. rewrite sub_spec.
  destruct (is_finite_spec x H) as [(s & ->) | (s & m & e & ->)].
  - destruct s; reflexivity.
  - unfold SF64sub, SFsub. rewrite Z.sub_diag. reflexivity.
Qed.

Lemma div_zero_positive (z y : float) (m : positive) (e : Z) :
  Prim2SF z = S754_zero false -> Prim2SF y = S754_finite false m e ->
  Prim2SF (z / y) = S754_zero false.
Proof. intros Hz Hy. rewrite div_spec, Hz, Hy. reflexivity. Qed.

(** less zero, a gravity is itself *)
Lemma sub_zero (g c : float) : Prim2SF c = S754_zero false -> (g - c)%float = g.
Proof.
  intros Hc. apply Prim2SF_inj. rewrite sub_spec, Hc.
  destruct (Prim2SF g) as [[|]|s| |s m e]; reflexivity.
Qed.

(** ** The gravity that does not move *)

(** with the final gravity at OG, the change of one pass is zero *)
Lemma gravity_change_zero (a : float) (n : Z) (c : float) :
  is_finite a = true -> 0 < n -> gravity_change a a n = Py.Ok c ->
  Prim2SF c = S754_zero false.
Proof.
  intros Ha Hn. unfold gravity_change, Py.truediv, Py.to_float, Py.rbind.
  destruct (Py.float_of_int n) as [nf|] eqn:F; [| discriminate].
  unfold Py.float_truediv. destruct (nf =? 0)%float eqn:Z0; [discriminate|].
  intros H. injection H as <-.
  destruct (float_of_int_positive n nf Hn F Z0) as (m & e & P).
  apply (div_zero_positive _ nf m e (sub_self_zero a Ha) P).
Qed.

Lemma decrements_stay (a : float) (n : Z) (k : nat) : forall g x,
  is_finite a = true -> 0 < n -> Py.max a g = g ->
  decrements a a n k g = Py.Ok x -> x = g.
Proof.
  induction k as [|k IH]; intros g x Ha Hn Hg; simpl.
  - intros H. injection H as <-. reflexivity.
  - destruct (gravity_change a a n) as [c|e] eqn:C; [| discriminate]. simpl.
    rewrite (sub_zero g c (gravity_change_zero a n c Ha Hn C)), Hg.
    apply (IH g x Ha Hn Hg).
Qed.

Lemma max_of_max (a b : float) : Py.max a (Py.max a b) = Py.max a b.
Proof.
  unfold Py.max. destruct (a <? b)%float eqn:L; [rewrite L; reflexivity|].
  destruct (a <? a)%float; reflexivity.
Qed.

(** When FG is not below OG, the lower gravity the loop aims at is OG
    itself and the change of a pass is (OG - OG) / steps = 0: every gravity
    the run shows, in the start line, the per-tick lines, the notifications
    and the complete line, is max(OG, FG), the gravity the run starts
    with.  OG is taken finite. *)
Theorem gravity_stays_unless_fg_below (E : Env) (args : Args) :
  (fg (resolved E args) <? og (resolved E args))%float = false ->
  is_finite (og (resolved E args)) = true ->
  Forall (fun g => g = Py.max (og (resolved E args)) (fg (resolved E args)))
    (gravities (history E args)).
Proof.
  intros Hlt Hfin.
  assert (Hmin : Py.min (og (resolved E args)) (fg (resolved E args)) = og (resolved E args)).
  { unfold Py.min. rewrite Hlt. reflexivity. }
  destruct (run_gravities E args) as [(G & e & Ho) | (l & t & G & Hl & Hk & Ht)]; rewrite G.
  - constructor.
  - constructor; [reflexivity|].
    destruct (Z.le_gt_cases (time (resolved E args) * 60) 0) as [Neg | Pos].
    + (* no pass of the loop: the start gravity throughout *)
      assert (l = []) as -> by (destruct l; [reflexivity | cbn [List.length] in Hl; lia]).
      cbn [flat_map app].
      destruct Ht as [-> | (g & Hg & Ht)]; [constructor|].
      injection Hg as <-. destruct Ht as [-> | ->]; repeat constructor.
    + eapply Forall_impl; [| apply (staircase_members (resolved E args) l 0 t Hk Ht)].
      intros g (j & Hj). unfold gravity_after in Hj. rewrite Hmin in Hj.
      apply (decrements_stay _ _ j _ g Hfin Pos (max_of_max _ _) Hj).
Qed.

Lemma gravity_stays_unless_fg_below_witness :
  (fg (resolved calm swapped_gravities) <? og (resolved calm swapped_gravities))%float = false
  /\ is_finite (og (resolved calm swapped_gravities)) = true
  /\ Forall (fun g => g = 1.0615%float) (gravities (history calm swapped_gravities)).
Proof.
  assert (H1 : (fg (resolved calm swapped_gravities)
                <? og (resolved calm swapped_gravities))%float = false) by reflexivity.
  assert (H2 : is_finite (og (resolved calm swapped_gravities)) = true) by reflexivity.
  split; [exact H1|]. split; [exact H2|].
  exact (gravity_stays_unless_fg_below calm swapped_gravities H1 H2).
Defined.

(** ** What a run may do to the outside world *)

Section Emits.
Variable G : event -> Prop.

Lemma emits_ret {A} (a : A) (Q : A -> Prop) : Q a -> emits G (ret a) Q.
Proof.
  intros H w. exists []. rewrite app_nil_r. split; [reflexivity|]. split; [constructor|].
  intros a' E'. injection E' as <-. exact H.
Qed.

Lemma emits_raise {A} (e : Py.exn) (Q : A -> Prop) : emits G (raise e) Q.
Proof.
  intros w. exists []. rewrite app_nil_r. split; [reflexivity|]. split; [constructor|].
  discriminate.
Qed.

Lemma emits_lift {A} (r : Py.result A) : emits G (lift r) (fun a => r = Py.Ok a).
Proof.
  intros w. exists []. rewrite app_nil_r. split; [reflexivity|]. split; [constructor|].
  intros a H. exact H.
Qed.

Lemma emits_emit (e : event) : G e -> emits G (emit e) (fun _ => True).
Proof.
  intros H w. exists [e]. split; [reflexivity|]. split; [repeat constructor; exact H | auto].
Qed.

Lemma emits_ask {A} (oracle : nat -> A) : emits G (ask oracle) (fun a => exists q, a = oracle q).
Proof.
  intros w. exists []. rewrite app_nil_r. split; [reflexivity|]. split; [constructor|].
  intros a H. injection H as <-. eauto.
Qed.

Lemma emits_bind {A B} (m : M A) (k : A -> M B) (Q : A -> Prop) (R : B -> Prop) :
  emits G m Q -> (forall a, Q a -> emits G (k a) R) -> emits G (bind m k) R.
Proof.
  intros Hm Hk w. unfold bind.
  destruct (Hm w) as (e1 & T1 & F1 & Q1).
  destruct (m w) as [[a|e] w1]; simpl in *.
  - destruct (Hk a (Q1 a eq_refl) w1) as (e2 & T2 & F2 & Q2).
    exists (e1 ++ e2). rewrite T2, T1, app_assoc. split; [reflexivity|].
    split; [apply Forall_app; split; assumption | exact Q2].
  - exists e1. split; [exact T1|]. split; [exact F1 | discriminate].
Qed.

Lemma emits_try {A} (m : M A) (h : Py.exn -> M A) (Q : A -> Prop) :
  emits G m Q -> (forall e, emits G (h e) Q) -> emits G (try_except m h) Q.
Proof.
  intros Hm Hh w. unfold try_except.
  destruct (Hm w) as (e1 & T1 & F1 & Q1).
  destruct (m w) as [[a|e] w1]; simpl in *.
  - exists e1. split; [exact T1|]. split; [exact F1 | exact Q1].
  - destruct (Hh e w1) as (e2 & T2 & F2 & Q2).
    exists (e1 ++ e2). rewrite T2, T1, app_assoc. split; [reflexivity|].
    split; [apply Forall_app; split; assumption | exact Q2].
Qed.

Lemma emits_weaken {A} (m : M A) (Q R : A -> Prop) :
  emits G m Q -> (forall a, Q a -> R a) -> emits G m R.
Proof.
  intros Hm H w. destruct (Hm w) as (e1 & T1 & F1 & Q1).
  exists e1. split; [exact T1|]. split; [exact F1|]. intros a Ha. apply H, Q1, Ha.
Qed.

(** a call of the outside world that may fail *)
Lemma emits_call (E : Env) (e : bool -> event) :
  (forall ok, G (e ok)) ->
  emits G (bind (ask (fails E)) (fun failed =>
             bind (emit (e (negb failed))) (fun _ =>
               if (failed : bool) then raise Py.OSError else ret tt)))
    (fun _ => True).
Proof.
  intros H. eapply emits_bind; [apply emits_ask|]. intros failed _.
  eapply emits_bind; [apply emits_emit, H|]. intros _ _.
  destruct failed; [apply emits_raise | apply emits_ret; exact I].
Qed.

Lemma file_write_emits (E : Env) (l : log_line) :
  (forall ok, G (EWrite ok l)) -> emits G (file_write E l) (fun _ => True).
Proof. intros H. apply (emits_call E (fun ok => EWrite ok l) H). Qed.

Lemma file_flush_emits (E : Env) :
  (forall ok, G (EFlush ok)) -> emits G (file_flush E) (fun _ => True).
Proof. intros H. apply (emits_call E EFlush H). Qed.

Lemma subprocess_run_emits (E : Env) (a c : string) (f g : float) :
  (forall ok, G (ECurl ok a c f g)) -> emits G (subprocess_run E a c f g) (fun _ => True).
Proof. intros H. apply (emits_call E (fun ok => ECurl ok a c f g) H). Qed.
End Emits.

Section Allowed.
Variable E : Env.
Variable D : Defaults.

Lemma update_log_allowed (ts : Z) (f g : float) (is_start is_end : bool) :
  emits (allowed E D)
    (update_log E D ts script_version f (color D) g (starttemp D) (og D) is_start is_end)
    (fun _ => True).
Proof.
  unfold update_log. apply emits_try.
  - eapply emits_bind with (Q := fun l =>
      forall ok, allowed E D (EWrite ok l)).
    + destruct is_start; [apply emits_ret; intros ok; constructor|].
      destruct is_end; [| apply emits_ret; intros ok; constructor].
      eapply emits_bind; [apply file_write_emits; intros ok; constructor|].
      intros _ _. apply emits_ret. intros ok. constructor.
    + intros l Hl. eapply emits_bind; [apply file_write_emits; exact Hl|].
      intros _ _. apply file_flush_emits. intros ok. constructor.
  - intros e. apply emits_emit. constructor.
Qed.

Lemma execute_curl_command_allowed (f g : float) :
  emits (allowed E D) (execute_curl_command E (ip D) (color D) f g) (fun _ => True).
Proof.
  unfold execute_curl_command. apply emits_try.
  - apply subprocess_run_emits. intros ok. constructor.
  - intros e. apply emits_emit. constructor.
Qed.

Section Loop.
Variable dir : direction.
Variable end_temp : Z.
Variable tcpi final : float.

Lemma tick_allowed (i : Z) (st : Locals) :
  0 <= i < time D * 60 ->
  emits (allowed E D)
    (tick E D dir tcpi final (time D * 60) (clock E 0) (starttemp D) i st)
    (fun _ => True).
Proof.
  intros Hi. unfold tick.
  eapply emits_bind; [apply emits_lift|]. intros t _.
  eapply emits_bind; [apply emits_lift|]. intros f _.
  eapply emits_bind; [apply emits_ask|]. intros ts _.
  eapply emits_bind; [apply update_log_allowed|]. intros _ _.
  eapply emits_bind; [apply execute_curl_command_allowed|]. intros _ _.
  eapply emits_bind; [apply emits_lift|]. intros change _.
  cbv zeta.
  eapply emits_bind; [apply emits_ask|]. intros c (q & ->).
  eapply emits_bind; [apply emits_lift|]. intros fi Hfi.
  eapply emits_bind with (Q := fun _ => True); [| intros _ _; apply emits_ret; exact I].
  destruct (0 <? fi - (clock E q - clock E 0))%float eqn:S;
    [| apply emits_ret; exact I].
  apply emits_emit. apply (may_sleep E D i q fi Hi Hfi S).
Qed.

Lemma loop_allowed (fuel : nat) : forall (i : Z) (st : Locals),
  0 <= i -> (fuel <> 0%nat -> i + Z.of_nat fuel <= time D * 60) ->
  emits (allowed E D)
    (loop E D dir end_temp tcpi final (time D * 60) (clock E 0) (starttemp D) fuel i st)
    (fun _ => True).
Proof.
  induction fuel as [|fuel IH]; intros i st H0 Hn; simpl; [apply emits_ret; exact I|].
  destruct (reached dir end_temp (start_temp st)); [apply emits_ret; exact I|].
  specialize (Hn ltac:(discriminate)).
  eapply emits_bind; [apply tick_allowed; lia|].
  intros st' _. apply IH; lia.
Qed.
End Loop.
End Allowed.

(** everything a run does is allowed by its parameters *)
Lemma run_allowed (E : Env) (args : Args) :
  Forall (allowed E (resolved E args)) (history E args).
Proof.
  destruct (unreadable E args) eqn:U.
  { unfold history. rewrite (run_of_unreadable E args U). constructor. }
  unfold history, run, main. unfold bind at 1. rewrite (resolve_run E args U).
  assert (P : Forall (allowed E (resolved E args)) (preamble E args)).
  { unfold preamble. destruct (a_config args) as [path|]; [| constructor].
    destruct (String.length path =? 0)%nat; [constructor|].
    destruct (files E path); repeat constructor. }
  generalize dependent (preamble E args). generalize (resolved E args). clear U.
  intros D pre P.
  unfold bind at 1, lift at 1.
  destruct (milli_celsius (starttemp D)) as [s|x]; [| exact P].
  unfold bind at 1, lift at 1.
  destruct (milli_celsius (finaltemp D)) as [e|x]; [| exact P].
  cbv zeta. unfold bind at 1, lift at 1.
  destruct (Py.int_truediv (e - s) (time D * 60)) as [c|x]; [| exact P].
  unfold bind at 1, ask at 1. cbn [asked trace].
  match goal with |- Forall _ (snd (let (r, w) := ?m ?w1 in _)) =>
    assert (H : emits (allowed E D) m (fun _ => True)); [| destruct (H w1) as (evs & T & F & _);
      destruct (m w1) as [r w']; simpl in *; rewrite T; apply Forall_app; split; assumption]
  end.
  eapply emits_bind; [apply emits_lift|]. intros f _.
  eapply emits_bind; [apply emits_emit; constructor|]. intros _ _.
  eapply emits_bind with (Q := fun _ => True).
  { destruct (log_opens E); [apply emits_emit; constructor | apply emits_raise]. }
  intros _ _.
  eapply emits_bind; [apply emits_ask|]. intros ts _.
  eapply emits_bind; [apply update_log_allowed|]. intros _ _.
  eapply emits_bind.
  { apply loop_allowed; lia. }
  intros st _.
  eapply emits_bind; [apply execute_curl_command_allowed|]. intros _ _.
  eapply emits_bind; [apply update_log_allowed|]. intros _ _.
  apply emits_emit. constructor.
Qed.



(** Every notification of a run goes to the address and the tilt colour of
    its resolved parameters, and every line handed to the log carries that
    colour; the start line reports the run time, the final gravity and the
    final temperature as the parameters give them, and the recap the start
    temperature and the original gravity as they give them. *)
Theorem outputs_carry_the_parameters (E : Env) (args : Args) :
  (forall ok a c t g,
     In (ECurl ok a c t g) (history E args) ->
     a = ip (resolved E args) /\ c = color (resolved E args))
  /\ (forall ok l,
        In (EWrite ok l) (history E args) ->
        match l with
        | Starting _ c _ _ run_time final_gravity final_temp =>
            c = color (resolved E args)
            /\ run_time = time (resolved E args)
            /\ final_gravity = fg (resolved E args)
            /\ final_temp = finaltemp (resolved E args)
        | AtStart _ v start start_gravity c =>
            v = script_version
            /\ start = starttemp (resolved E args)
            /\ start_gravity = og (resolved E args)
            /\ c = color (resolved E args)
        | Complete _ v _ _ c => v = script_version /\ c = color (resolved E args)
        | Current _ _ _ c => c = color (resolved E args)
        end).
Proof.
  split.
  - intros ok a c t g H.
    pose proof (proj1 (Forall_forall _ _) (run_allowed E args) _ H) as A.
    inversion A. auto.
  - intros ok l H.
    pose proof (proj1 (Forall_forall _ _) (run_allowed E args) _ H) as A.
    inversion A; auto.
Qed.

Lemma outputs_carry_the_parameters_witness :
  In (ECurl true "192.168.254.62"%string "yellow*hd"%string 69.9998%float 1.0615%float)
    (history calm level)
  /\ "192.168.254.62"%string = ip (resolved calm level).
Proof.
  assert (H : In (ECurl true "192.168.254.62"%string "yellow*hd"%string
                    69.9998%float 1.0615%float) (history calm level)).
  { vm_compute. do 4 right. left. reflexivity. }
  split; [exact H|].
  exact (proj1 (proj1 (outputs_carry_the_parameters calm level) _ _ _ _ _ H)).
Defined.

(** ** The lines handed to the log and their timestamps *)




Section Hands.
Variable E : Env.








End Hands.





(** ** Binary64 arithmetic: ints that are floats *)



(** ** Runs that end well *)



Section Completion.
Variable D : Defaults.
Variable dir : direction.
Variable end_temp : Z.
Variable tcpi final : float.
Variable n : Z.
Hypothesis count : 0 < n < 2 ^ 53.


End Completion.



(** ** The summary of a run *)



(** ** Failures are reported at once, lines are flushed at once *)

Lemma orderly_app (a b : list event) : orderly a -> orderly b -> orderly (a ++ b).
Proof.
  intros Ha Hb. induction Ha; cbn [app]; try (constructor; assumption); exact Hb.
Qed.

Lemma orders_ret {A} (a : A) : orders (ret a).
Proof. intros w. exists []. rewrite app_nil_r. split; [reflexivity | constructor]. Qed.

Lemma orders_raise {A} (e : Py.exn) : orders (@raise A e).
Proof. intros w. exists []. rewrite app_nil_r. split; [reflexivity | constructor]. Qed.

Lemma orders_lift {A} (r : Py.result A) : orders (lift r).
Proof. intros w. exists []. rewrite app_nil_r. split; [reflexivity | constructor]. Qed.

Lemma orders_ask {A} (oracle : nat -> A) : orders (ask oracle).
Proof. intros w. exists []. rewrite app_nil_r. split; [reflexivity | constructor]. Qed.

Lemma orders_emit (e : event) : orderly [e] -> orders (emit e).
Proof. intros H w. exists [e]. split; [reflexivity | exact H]. Qed.

Lemma orders_bind {A B} (m : M A) (k : A -> M B) :
  orders m -> (forall a, orders (k a)) -> orders (bind m k).
Proof.
  intros Hm Hk w. unfold bind.
  destruct (Hm w) as (e1 & T1 & O1).
  destruct (m w) as [[a|e] w1]; simpl in *.
  - destruct (Hk a w1) as (e2 & T2 & O2).
    exists (e1 ++ e2). rewrite T2, T1, app_assoc. split; [reflexivity|].
    apply orderly_app; assumption.
  - exists e1. split; assumption.
Qed.

Lemma orders_update_log E D ts v f c g s o is_start is_end :
  orders (update_log E D ts v f c g s o is_start is_end).
Proof.
  intros w.
  unfold update_log, file_write, file_flush, try_except, bind, ret, raise, emit, ask.
  destruct is_start; [| destruct is_end]; simpl;
    destruct (fails E (asked w)) eqn:F1; simpl;
    try (destruct (fails E (S (asked w))) eqn:F2; simpl);
    try (destruct (fails E (S (S (asked w)))) eqn:F3; simpl);
    (eexists; split; [rewrite <- ?app_assoc; simpl; reflexivity|]);
    repeat first [ apply orderly_nil
                 | apply orderly_unwritten
                 | apply orderly_recap; [reflexivity | reflexivity |]
                 | apply orderly_flushed; [reflexivity |]
                 | apply orderly_unflushed; [reflexivity |] ].
Qed.

Lemma orders_execute_curl_command E a c f g : orders (execute_curl_command E a c f g).
Proof.
  intros w.
  unfold execute_curl_command, subprocess_run, try_except, bind, ret, raise, emit, ask.
  simpl. destruct (fails E (asked w)); simpl;
    (eexists; split; [rewrite <- ?app_assoc; simpl; reflexivity|]);
    repeat constructor.
Qed.

Ltac order :=
  repeat first
    [ apply orders_ret | apply orders_raise | apply orders_lift | apply orders_ask
    | apply orders_update_log | apply orders_execute_curl_command
    | apply orders_emit; repeat constructor
    | apply orders_bind; [| intros ?]
    | match goal with
      | |- orders (if ?b then _ else _) => destruct b
      | |- orders (match ?x with _ => _ end) => destruct x
      end ].

Lemma orders_tick E D dir tcpi final n start_time stf i st :
  orders (tick E D dir tcpi final n start_time stf i st).
Proof. unfold tick. order. Qed.

Lemma orders_loop E D dir end_temp tcpi final n start_time stf fuel :
  forall i st, orders (loop E D dir end_temp tcpi final n start_time stf fuel i st).
Proof.
  induction fuel as [|fuel IH]; intros i st; simpl; [apply orders_ret|].
  destruct (reached dir end_temp (start_temp st)); [apply orders_ret|].
  apply orders_bind; [apply orders_tick | intros st'; apply IH].
Qed.

Lemma orders_main E args : orders (main E args).
Proof.
  unfold main, resolve, read_config_file.
  order; apply orders_loop.
Qed.

(** what a run does is orderly *)
Lemma run_orderly (E : Env) (args : Args) : orderly (history E args).
Proof.
  unfold history, run. destruct (orders_main E args w0) as (evs & T & O).
  destruct (main E args w0) as [r w]. simpl in *. rewrite T. exact O.
Qed.

Ltac peel H :=
  match type of H with
  | nth_error (_ :: _) ?k = Some _ =>
      destruct k as [|k]; cbn [nth_error] in H; [injection H as <- |]
  end.

(** in an orderly trace a call that raised is followed by its message *)
Lemma orderly_reported (tr : list event) :
  orderly tr ->
  forall k e, nth_error tr k = Some e -> failed e = true ->
  nth_error tr (S k) = Some (EPrint (report e)).
Proof.
  induction 1 as [|m rest Q O IH|rest O IH|s rest O IH|a c t g rest O IH|a c t g rest O IH
                 |l rest R O IH|l rest R O IH|l rest O IH|l ok c rest R C O IH];
    intros k e H F.
  - destruct k; discriminate.
  - peel H; [discriminate | apply (IH _ _ H F)].
  - peel H; [discriminate | apply (IH _ _ H F)].
  - peel H; [discriminate | apply (IH _ _ H F)].
  - peel H; [discriminate | apply (IH _ _ H F)].
  - peel H; [reflexivity|]. peel H; [discriminate | apply (IH _ _ H F)].
  - peel H; [discriminate|]. peel H; [discriminate | apply (IH _ _ H F)].
  - peel H; [discriminate|]. peel H; [reflexivity|].
    peel H; [discriminate | apply (IH _ _ H F)].
  - peel H; [reflexivity|]. peel H; [discriminate | apply (IH _ _ H F)].
  - peel H; [discriminate | apply (IH _ _ H F)].
Qed.

(** and a message that reports a failure follows the call that raised *)
Lemma orderly_caused (tr : list event) :
  orderly tr ->
  forall k m, nth_error tr k = Some (EPrint m) -> quiet m = false ->
  exists k' e, k = S k' /\ nth_error tr k' = Some e /\ failed e = true /\ report e = m.
Proof.
  assert (Shift : forall (x : event) (rest : list event) (k : nat) (m : message),
            (exists k' e, k = S k' /\ nth_error rest k' = Some e
                          /\ failed e = true /\ report e = m) ->
            exists k' e, S k = S k' /\ nth_error (x :: rest) k' = Some e
                         /\ failed e = true /\ report e = m).
  { intros x rest k m (k' & e & -> & N & F & R). exists (S k'), e. auto. }
  induction 1 as [|m0 rest Q O IH|rest O IH|s rest O IH|a c t g rest O IH|a c t g rest O IH
                 |l rest R O IH|l rest R O IH|l rest O IH|l ok c rest R C O IH];
    intros k m H F.
  - destruct k; discriminate.
  - destruct k as [|k]; cbn [nth_error] in H.
    + injection H as <-. rewrite Q in F. discriminate.
    + apply Shift, (IH _ _ H F).
  - destruct k as [|k]; cbn [nth_error] in H; [discriminate | apply Shift, (IH _ _ H F)].
  - destruct k as [|k]; cbn [nth_error] in H; [discriminate | apply Shift, (IH _ _ H F)].
  - destruct k as [|k]; cbn [nth_error] in H; [discriminate | apply Shift, (IH _ _ H F)].
  - destruct k as [|[|k]]; cbn [nth_error] in H; [discriminate | |].
    + injection H as <-. exists 0%nat, (ECurl false a c t g). auto.
    + do 2 apply Shift. apply (IH _ _ H F).
  - destruct k as [|[|k]]; cbn [nth_error] in H; [discriminate | discriminate |].
    do 2 apply Shift. apply (IH _ _ H F).
  - destruct k as [|[|[|k]]]; cbn [nth_error] in H; [discriminate | discriminate | |].
    + injection H as <-. exists 1%nat, (EFlush false). auto.
    + do 3 apply Shift. apply (IH _ _ H F).
  - destruct k as [|[|k]]; cbn [nth_error] in H; [discriminate | |].
    + injection H as <-. exists 0%nat, (EWrite false l). auto.
    + do 2 apply Shift. apply (IH _ _ H F).
  - destruct k as [|k]; cbn [nth_error] in H; [discriminate | apply Shift, (IH _ _ H F)].
Qed.

(** in an orderly trace a line that was written is followed by its flush,
    the recap by the write of the complete line *)
Lemma orderly_flushing (tr : list event) :
  orderly tr ->
  forall k l, nth_error tr k = Some (EWrite true l) ->
  if is_recap_line l
  then exists ok c, nth_error tr (S k) = Some (EWrite ok c) /\ is_complete_line c = true
  else exists ok, nth_error tr (S k) = Some (EFlush ok).
Proof.
  induction 1 as [|m0 rest Q O IH|rest O IH|s rest O IH|a c t g rest O IH|a c t g rest O IH
                 |l0 rest R O IH|l0 rest R O IH|l0 rest O IH|l0 ok c rest R C O IH];
    intros k l H.
  - destruct k; discriminate.
  - destruct k as [|k]; cbn [nth_error] in H; [discriminate | apply (IH _ _ H)].
  - destruct k as [|k]; cbn [nth_error] in H; [discriminate | apply (IH _ _ H)].
  - destruct k as [|k]; cbn [nth_error] in H; [discriminate | apply (IH _ _ H)].
  - destruct k as [|k]; cbn [nth_error] in H; [discriminate | apply (IH _ _ H)].
  - destruct k as [|[|k]]; cbn [nth_error] in H; [discriminate | discriminate | apply (IH _ _ H)].
  - destruct k as [|[|k]]; cbn [nth_error] in H; [| discriminate | apply (IH _ _ H)].
    injection H as <-. rewrite R. exists true. reflexivity.
  - destruct k as [|[|[|k]]]; cbn [nth_error] in H;
      [| discriminate | discriminate | apply (IH _ _ H)].
    injection H as <-. rewrite R. exists false. reflexivity.
  - destruct k as [|[|k]]; cbn [nth_error] in H; [discriminate | discriminate | apply (IH _ _ H)].
  - destruct k as [|k]; cbn [nth_error] in H; [| apply (IH _ _ H)].
    injection H as <-. rewrite R. exists ok, c. split; [reflexivity | exact C].
Qed.

(** Every write, flush and notification that raises is followed at once
    by its error message, and no such message is printed otherwise: an
    error message always comes right after the call that raised. *)
Theorem failures_are_reported_at_once (E : Env) (args : Args) :
  (forall k e,
     nth_error (history E args) k = Some e -> failed e = true ->
     nth_error (history E args) (S k) = Some (EPrint (report e)))
  /\ (forall k m,
        nth_error (history E args) k = Some (EPrint m) -> quiet m = false ->
        exists k' e,
          k = S k' /\ nth_error (history E args) k' = Some e
          /\ failed e = true /\ report e = m).
Proof.
  split.
  - apply orderly_reported, run_orderly.
  - apply orderly_caused, run_orderly.
Qed.

Lemma failures_are_reported_at_once_witness :
  nth_error (history flaky level) 2 = Some (EWrite false
    (Starting 1 "yellow*hd"%string 1.0615%float 69.9998%float 1 1.015%float 70%float))
  /\ nth_error (history flaky level) 3 = Some (EPrint MsgLogError).
Proof.
  assert (H : nth_error (history flaky level) 2 = Some (EWrite false
    (Starting 1 "yellow*hd"%string 1.0615%float 69.9998%float 1 1.015%float 70%float)))
    by (vm_compute; reflexivity).
  split; [exact H|].
  exact (proj1 (failures_are_reported_at_once flaky level) 2%nat _ H eq_refl).
Defined.

(** Every line that is written to the log is flushed at once, so that the
    log can be followed while the run goes on: a write that went through
    is followed at once by the call of [flush], but for the recap of the
    start values, which is followed by the write of the complete line, the
    two being flushed together. *)
Theorem written_lines_are_flushed (E : Env) (args : Args) :
  forall k l,
    nth_error (history E args) k = Some (EWrite true l) ->
    if is_recap_line l
    then exists ok c,
           nth_error (history E args) (S k) = Some (EWrite ok c)
           /\ is_complete_line c = true
    else exists ok, nth_error (history E args) (S k) = Some (EFlush ok).
Proof. apply orderly_flushing, run_orderly. Qed.

Lemma written_lines_are_flushed_witness :
  nth_error (history calm level) 2 = Some (EWrite true
    (Starting 1 "yellow*hd"%string 1.0615%float 69.9998%float 1 1.015%float 70%float))
  /\ exists ok, nth_error (history calm level) 3 = Some (EFlush ok).
Proof.
  assert (H : nth_error (history calm level) 2 = Some (EWrite true
    (Starting 1 "yellow*hd"%string 1.0615%float 69.9998%float 1 1.015%float 70%float)))
    by (vm_compute; reflexivity).
  split; [exact H|].
  exact (written_lines_are_flushed calm level 2%nat _ H).
Defined.

(** ** The messages of a run *)

Lemma announcements_app (a b : list event) :
  announcements (a ++ b) = announcements a ++ announcements b.
Proof. apply flat_map_app. Qed.

Lemma announcements_none (evs : list event) :
  Forall (fun e => announced e = []) evs -> announcements evs = [].
Proof.
  induction 1 as [|e evs He _ IH]; [reflexivity|].
  unfold announcements in *. cbn [flat_map]. rewrite He, IH. reflexivity.
Qed.

Section Silent.
Variable E : Env.

Lemma update_log_silent D ts v f c g s o is_start is_end :
  emits (fun e => announced e = [])
    (update_log E D ts v f c g s o is_start is_end) (fun _ => True).
Proof.
  unfold update_log. apply emits_try.
  - eapply emits_bind with (Q := fun _ => True).
    + destruct is_start; [apply emits_ret; exact I|].
      destruct is_end; [| apply emits_ret; exact I].
      eapply emits_bind; [apply file_write_emits; reflexivity|].
      intros _ _. apply emits_ret. exact I.
    + intros l _. eapply emits_bind; [apply file_write_emits; reflexivity|].
      intros _ _. apply file_flush_emits. reflexivity.
  - intros e. apply emits_emit. reflexivity.
Qed.

Lemma execute_curl_command_silent a c f g :
  emits (fun e => announced e = []) (execute_curl_command E a c f g) (fun _ => True).
Proof.
  unfold execute_curl_command. apply emits_try.
  - apply subprocess_run_emits. reflexivity.
  - intros e. apply emits_emit. reflexivity.
Qed.

Lemma tick_silent D dir tcpi final n start_time stf i st :
  emits (fun e => announced e = [])
    (tick E D dir tcpi final n start_time stf i st) (fun _ => True).
Proof.
  unfold tick.
  eapply emits_bind; [apply emits_lift|]. intros t _.
  eapply emits_bind; [apply emits_lift|]. intros f _.
  eapply emits_bind; [apply emits_ask|]. intros ts _.
  eapply emits_bind; [apply update_log_silent|]. intros _ _.
  eapply emits_bind; [apply execute_curl_command_silent|]. intros _ _.
  eapply emits_bind; [apply emits_lift|]. intros change _.
  cbv zeta.
  eapply emits_bind; [apply emits_ask|]. intros c _.
  eapply emits_bind; [apply emits_lift|]. intros fi _.
  eapply emits_bind with (Q := fun _ => True); [| intros _ _; apply emits_ret; exact I].
  destruct (0 <? fi - (c - start_time))%float; [| apply emits_ret; exact I].
  apply emits_emit. reflexivity.
Qed.

Lemma loop_silent D dir end_temp tcpi final n start_time stf fuel :
  forall i st,
  emits (fun e => announced e = [])
    (loop E D dir end_temp tcpi final n start_time stf fuel i st) (fun _ => True).
Proof.
  induction fuel as [|fuel IH]; intros i st; simpl; [apply emits_ret; exact I|].
  destruct (reached dir end_temp (start_temp st)); [apply emits_ret; exact I|].
  eapply emits_bind; [apply tick_silent|]. intros st' _. apply IH.
Qed.
End Silent.

(** what a silent computation leaves of the announcements *)
Lemma silent_step {A} (m : M A) (w : World) :
  emits (fun e => announced e = []) m (fun _ => True) ->
  announcements (trace (snd (m w))) = announcements (trace w).
Proof.
  intros H. destruct (H w) as (evs & -> & F & _).
  rewrite announcements_app, (announcements_none evs F). apply app_nil_r.
Qed.

(** the messages of a run whose conversions succeed *)
Lemma run_announcements (E : Env) (args : Args) (p : Plan) :
  unreadable E args = false -> plan (resolved E args) = Py.Ok p ->
  announcements (history E args)
  = announcements (preamble E args)
    ++ MsgStarted :: match outcome E args with
                     | Py.Ok _ => [MsgComplete]
                     | Py.Raise _ => []
                     end.
Proof.
  intros U P. unfold outcome, history, run.
  destruct (main E args w0) as [r w'] eqn:M. cbn [fst snd].
  revert M. unfold main. unfold bind at 1. rewrite (resolve_run E args U).
  revert P. generalize (preamble E args). generalize (resolved E args). clear U.
  intros D pre. unfold plan, Py.rbind.
  unfold bind at 1, lift at 1.
  destruct (milli_celsius (starttemp D)) as [s|x]; [| discriminate].
  unfold bind at 1, lift at 1.
  destruct (milli_celsius (finaltemp D)) as [e|x]; [| discriminate].
  cbv zeta. unfold bind at 1, lift at 1.
  destruct (Py.int_truediv (e - s) (time D * 60)) as [c|x]; [| discriminate].
  unfold bind at 1, ask at 1. cbn [asked trace].
  unfold bind at 1, lift at 1.
  destruct (fahrenheit (Py.Int s)) as [f|x]; [| discriminate].
  intros _.
  unfold bind at 1, emit at 1. cbn [asked trace].
  unfold bind at 1.
  destruct (log_opens E).
  2:{ unfold raise. intros M. injection M as <- <-. cbn [trace].
      rewrite announcements_app. reflexivity. }
  unfold emit at 1. cbn [asked trace].
  unfold bind at 1, ask at 1. cbn [asked trace].
  unfold bind at 1.
  match goal with |- context [update_log E D ?ts ?v f ?c ?g ?sf ?o true false ?w2] =>
    pose proof (silent_step _ w2 (update_log_silent E D ts v f c g sf o true false)) as S3;
    pose proof (proj1 (update_log_swallows E D ts v f c g sf o true false w2)) as O3;
    destruct (update_log E D ts v f c g sf o true false w2) as [r3 w3]
  end.
  cbn [fst snd] in S3, O3. subst r3.
  unfold bind at 1.
  match goal with |- context [loop E D ?dir e c ?fin ?n ?st ?sf ?fuel 0 ?loc w3] =>
    pose proof (silent_step _ w3 (loop_silent E D dir e c fin n st sf fuel 0 loc)) as S4;
    destruct (loop E D dir e c fin n st sf fuel 0 loc w3) as [[st'|x] w4]
  end.
  2:{ intros M. injection M as <- <-. cbn [snd] in S4. rewrite S4, S3. cbn [trace].
      rewrite !announcements_app. cbn. rewrite app_nil_r. reflexivity. }
  cbn [snd] in S4.
  unfold bind at 1.
  pose proof (silent_step _ w4 (execute_curl_command_silent E (ip D) (color D)
                                  (current_temp_fahrenheit st') (gravity st'))) as S5.
  pose proof (proj1 (execute_curl_command_swallows E (ip D) (color D)
                       (current_temp_fahrenheit st') (gravity st') w4)) as O5.
  destruct (execute_curl_command E (ip D) (color D) (current_temp_fahrenheit st')
              (gravity st') w4) as [r5 w5].
  cbn [fst snd] in S5, O5. subst r5.
  unfold bind at 1.
  pose proof (silent_step _ w5 (update_log_silent E D (timestamp st') script_version
                                  (current_temp_fahrenheit st') (color D) (gravity st')
                                  (starttemp D) (og D) false true)) as S6.
  pose proof (proj1 (update_log_swallows E D (timestamp st') script_version
                       (current_temp_fahrenheit st') (color D) (gravity st')
                       (starttemp D) (og D) false true w5)) as O6.
  destruct (update_log E D (timestamp st') script_version (current_temp_fahrenheit st')
              (color D) (gravity st') (starttemp D) (og D) false true w5) as [r6 w6].
  cbn [fst snd] in S6, O6. subst r6.
  unfold emit. intros M. injection M as <- <-. cbn [trace].
  rewrite announcements_app, S6, S5, S4, S3. cbn [trace].
  rewrite !announcements_app. cbn. rewrite app_nil_r, <- app_assoc. reflexivity.
Qed.

(** What a run prints, the reports of failed writes and notifications
    apart: the parse error of its configuration file, if there is one;
    then, if its temperatures convert, that the simulation has started;
    and last, exactly when it ends well, that it is complete.  A run whose
    conversion fails prints neither. *)
Theorem messages_frame_the_run (E : Env) (args : Args) :
  unreadable E args = false ->
  (forall p, plan (resolved E args) = Py.Ok p ->
     announcements (history E args)
     = announcements (preamble E args)
       ++ MsgStarted :: match outcome E args with
                        | Py.Ok _ => [MsgComplete]
                        | Py.Raise _ => []
                        end)
  /\ (forall e, plan (resolved E args) = Py.Raise e ->
        announcements (history E args) = announcements (preamble E args)).
Proof.
  intros U. split.
  - intros p P. apply (run_announcements E args p U P).
  - intros e P. unfold history. rewrite (run_without_plan E args e U P). reflexivity.
Qed.

Lemma messages_frame_the_run_witness :
  unreadable garbled with_config = false
  /\ announcements (history garbled with_config)
     = [MsgConfigError "simferm.yaml"%string; MsgStarted; MsgComplete].
Proof.
  assert (U : unreadable garbled with_config = false) by reflexivity.
  assert (P : plan (resolved garbled with_config)
              = Py.Ok (mkPlan 38500 12944 (-7.0988888888888892)%float 101.3%float))
    by (vm_compute; reflexivity).
  assert (O : outcome garbled with_config = Py.Ok tt) by (vm_compute; reflexivity).
  split; [exact U|].
  pose proof (proj1 (messages_frame_the_run garbled with_config U) _ P) as H.
  rewrite O in H. exact H.
Defined.
